(** * Composite_HE_EC4.py: buckling curves and the HE composite column

    A shallow embedding of [chi_coeff] and [composite_HE_ec4] from
    [src/Composite_HE_EC4.py], and the properties the specification
    states about them; then the profile, beam and photovoltaics modules
    of the repository and properties read off their code.

    Number model.  Python's [float] is modelled by the real numbers [R]:
    every literal is the rational it denotes ([0.21] is 21/100) and
    [+ - * /] and square roots are exact.  Rounding, overflow, [inf] and
    [nan] are outside the model.  What Python does on top of the
    arithmetic is inside it: a division whose divisor is zero raises
    [ZeroDivisionError], [math.sqrt] of a negative number raises
    [ValueError], and a negative float raised to the power [0.5] is a
    complex number. *)

From Stdlib Require Import ZArith Reals Lra Psatz String List.
Import ListNotations.

Local Open Scope string_scope.
Local Open Scope R_scope.

(** ** Exceptions and the error monad *)

Inductive exn : Type :=
| ValueError (msg : string)
| ZeroDivisionError (msg : string).

Inductive result (A : Type) : Type :=
| Ok (a : A)
| Raise (e : exn).

Arguments Ok {A} a.
Arguments Raise {A} e.

Definition bind {A B : Type} (m : result A) (k : A -> result B) : result B :=
  match m with
  | Ok a => k a
  | Raise e => Raise e
  end.

Notation "x <- m ;; k" := (bind m (fun x => k))
  (at level 61, m at next level, right associativity).

(** ** Python numbers and the operators the module uses *)

Inductive pynum : Type :=
| PyFloat (x : R)
| PyComplex (re im : R).

(** [x / y] on floats. *)
Definition float_div (x y : R) : result R :=
  if Req_dec_T y 0 then Raise (ZeroDivisionError "float division by zero")
  else Ok (x / y).

(** [x ** 0.5] on a float: a negative base gives a complex number whose
    argument is a quarter turn. *)
Definition pow_half (x : R) : pynum :=
  if Rlt_dec x 0 then PyComplex 0 (sqrt (- x)) else PyFloat (sqrt x).

(** [x + z] with [x] a float. *)
Definition float_add (x : R) (z : pynum) : pynum :=
  match z with
  | PyFloat y => PyFloat (x + y)
  | PyComplex re im => PyComplex (x + re) im
  end.

(** [x / z] with [x] a float (an int literal in the source). *)
Definition num_div (x : R) (z : pynum) : result pynum :=
  match z with
  | PyFloat y => v <- float_div x y ;; Ok (PyFloat v)
  | PyComplex re im =>
      if Req_dec_T (re ^ 2 + im ^ 2) 0
      then Raise (ZeroDivisionError "complex division by zero")
      else Ok (PyComplex (x * re / (re ^ 2 + im ^ 2))
                         (- (x * im) / (re ^ 2 + im ^ 2)))
  end.

(** [math.sqrt]. *)
Definition math_sqrt (x : R) : result R :=
  if Rlt_dec x 0 then Raise (ValueError "math domain error")
  else Ok (sqrt x).

(** A dict with string keys, in insertion order. *)
Fixpoint dict_get {V : Type} (k : string) (d : list (string * V)) : option V :=
  match d with
  | [] => None
  | (k', v) :: d' => if String.eqb k k' then Some v else dict_get k d'
  end.

(** ** chi_coeff *)

Record line : Type := { alpha : R; lambda_1 : R }.

Definition lines : list (string * line) :=
  [ ("a", {| alpha := 0.21; lambda_1 := 1.0 |});
    ("b", {| alpha := 0.34; lambda_1 := 1.0 |});
    ("c", {| alpha := 0.49; lambda_1 := 1.0 |});
    ("d", {| alpha := 0.76; lambda_1 := 1.0 |}) ].

Definition invalid_curve_msg : string :=
  "Invalid buckling curve type. Valid types are 'a', 'b', 'c', 'd'.".

Definition chi_coeff (lambda_value : R) (line_type : string) : result pynum :=
  match dict_get line_type lines with
  | None => Raise (ValueError invalid_curve_msg)
  | Some ln =>
      let alpha := alpha ln in
      let lambda_1 := lambda_1 ln in
      bar_lambda <- float_div lambda_value lambda_1 ;;
      let phi := 0.5 * (1 + alpha * (bar_lambda - 0.2) + bar_lambda ^ 2) in
      num_div 1 (float_add phi (pow_half (phi ^ 2 - bar_lambda ^ 2)))
  end.

(** ** composite_HE_ec4 *)

(** The arguments; [fs], [Ec] and [Es] have defaults in the source. *)
Record inputs : Type := {
  L : R;      (* column length, m *)
  b : R;      (* column width, mm *)
  h : R;      (* column height, mm *)
  A_st : R;   (* profile cross section, cm2 *)
  I_st : R;   (* profile inertia, cm4 *)
  As_b : R;   (* reinforcement cross section, cm2 *)
  I_by : R;   (* reinforcement inertia, cm4 *)
  fy : R;     (* steel yield strength, MPa *)
  fc : R;     (* concrete compressive strength, MPa *)
  fs : R;     (* reinforcement yield strength, MPa *)
  Ec : R;     (* concrete modulus, GPa *)
  Es : R      (* steel modulus, GPa *)
}.

Definition call (L b h A_st I_st As_b I_by fy fc : R) : inputs :=
  {| L := L; b := b; h := h; A_st := A_st; I_st := I_st; As_b := As_b;
     I_by := I_by; fy := fy; fc := fc; fs := 500; Ec := 34; Es := 200 |}.

(** What the function shows: the four printed values (before [:.2f]
    formatting) and the data handed to the plot. *)
Record output : Type := {
  printed : list (string * R);
  points : list (string * (R * R));
  x_vals : list R;
  y_vals : list R
}.

Section Locals.
Variable i : inputs.

(* Safety factors *)
Definition gamma_M : R := 1.0.
Definition gamma_C : R := 1.5.
Definition gamma_B : R := 1.15.

Definition fyd : R := fy i / gamma_M.
Definition fcd : R := 0.85 * fc i / gamma_C.
Definition fsd : R := fs i / gamma_B.

Definition E_sm : R := Es i * 1e3.
Definition E_cm : R := Ec i * 1e3.
Definition phi_t : R := 2.5.

(* Load inputs *)
Definition N_ed : R := 2200e3.
Definition N_gd : R := 1400e3.

(* Geometrical properties *)
Definition b_c : R := b i / 1000.
Definition h_c : R := h i / 1000.
Definition I_s : R := I_st i / 1e8.
Definition I_b : R := I_by i / 1e8.
Definition I_c : R := (1 / 12) * b_c * h_c ^ 3 - I_s - I_b.

Definition Ec_eff : R := E_cm / (1 + (N_gd / N_ed) * phi_t).

Definition EI_eff : R := E_sm * I_s + 0.6 * Ec_eff * I_c + I_b * 200e3.
(* [A_st] and [As_b] after their reassignment on lines 80 and 81 *)
Definition A_st' : R := A_st i / 1e4.
Definition As_b' : R := As_b i / 1e4.
Definition A_c : R := (b_c * h_c) - (A_st' + As_b').

(* Plastic compressive strength *)
Definition Npl_rk : R := fy i * A_st' + fsd * As_b' + fc i * A_c.
Definition Npl_rd : R := fyd * A_st' + fsd * As_b' + fcd * A_c.

(* Point D *)
Definition t_w : R := 1 / 100.
Definition W_pla : R := 1283 * 1e-6.
Definition W_pls : R := 40 * 1e-6.
Definition W_plc : R := (b_c * h_c ^ 2) / 4 - W_pla - W_pls.

Definition M_max_rd : R := W_pla * fyd + 0.5 * W_plc * fcd + W_pls * fsd.
Definition N_d_rd : R := 0.5 * A_c * fcd.

(* Point B, from the neutral axis depth [h_n] *)
Definition M_b_rd (h_n : R) : R :=
  M_max_rd - (2 * h_n ^ 2 * t_w / 6 * fsd)
           - (2 * h_n ^ 2 * (b_c - t_w) / 6) * fcd.
Definition N_b_rd : R := A_c * fcd.

(** Lines 112 to 127: the prints and the plot data. *)
Definition report (N_cr h_n : R) : output :=
  let M_b_rd := M_b_rd h_n in
  let M_c_rd := M_b_rd in
  let points :=
    [ ("A", (0, Npl_rd * 1e3));
      ("B", (M_b_rd * 1e3, N_b_rd * 1e3));
      ("D", (M_max_rd * 1e3, N_d_rd * 1e3));
      ("C", (M_c_rd * 1e3, 0)) ] in
  {| printed :=
       [ ("N_cr", N_cr * 1e3);
         ("N_pl_rd", Npl_rd * 1e3);
         ("M_max_rd", M_max_rd * 1e3);
         ("M_pl_rd", M_b_rd * 1e3) ];
     points := points;
     x_vals := map (fun p => fst (snd p)) points;
     y_vals := map (fun p => snd (snd p)) points |}.

(** The steps that can raise, in source order: the divisions on lines
    79, 89 and 94, [math.sqrt] on line 89 and the call on line 90. *)
Definition composite_HE_ec4 : result output :=
  N_cr <- float_div (EI_eff * PI ^ 2) (L i ^ 2) ;;
  q <- float_div Npl_rk N_cr ;;
  lambda_k <- math_sqrt q ;;
  chi <- chi_coeff lambda_k "c" ;;
  r <- float_div fyd (0.85 * fcd) ;;
  h_n <- float_div A_c (2 * (b_c - t_w + (2 * t_w * r))) ;;
  Ok (report N_cr h_n).

(** The same computation with line 90 taken out. *)
Definition composite_HE_ec4_without_chi : result output :=
  N_cr <- float_div (EI_eff * PI ^ 2) (L i ^ 2) ;;
  q <- float_div Npl_rk N_cr ;;
  lambda_k <- math_sqrt q ;;
  r <- float_div fyd (0.85 * fcd) ;;
  h_n <- float_div A_c (2 * (b_c - t_w + (2 * t_w * r))) ;;
  Ok (report N_cr h_n).

End Locals.

(** ** Closed forms used in the statements *)

Definition valid_curves : list string := ["a"; "b"; "c"; "d"].

(** The imperfection factors of the four curves. *)
Definition alphas : list R := [0.21; 0.34; 0.49; 0.76].

(** Line 29 as a function of the imperfection factor and the relative
    slenderness. *)
Definition phi_of (alpha bar_lambda : R) : R :=
  0.5 * (1 + alpha * (bar_lambda - 0.2) + bar_lambda ^ 2).

(** Line 30 on the branch where the power is a float. *)
Definition chi_of (alpha bar_lambda : R) : R :=
  1 / (phi_of alpha bar_lambda
       + sqrt (phi_of alpha bar_lambda ^ 2 - bar_lambda ^ 2)).

(** Line 30 on the branch where the power is complex: the reciprocal of
    [phi + j*sqrt(bar_lambda^2 - phi^2)]. *)
Definition chi_complex_of (alpha bar_lambda : R) : pynum :=
  let phi := phi_of alpha bar_lambda in
  let im := sqrt (- (phi ^ 2 - bar_lambda ^ 2)) in
  PyComplex (1 * (phi + 0) / ((phi + 0) ^ 2 + im ^ 2))
            (- (1 * im) / ((phi + 0) ^ 2 + im ^ 2)).

(** The imperfection factor [lines[line_type]['alpha']] of a curve. *)
Definition alpha_of (line_type : string) : R :=
  match dict_get line_type lines with
  | Some ln => alpha ln
  | None => 0
  end.

(** Line 79 and line 94 when no divisor is zero. *)
Definition N_cr_of (i : inputs) : R := EI_eff i * PI ^ 2 / L i ^ 2.

Definition h_n_of (i : inputs) : R :=
  A_c i / (2 * (b_c i - t_w + (2 * t_w * (fyd i / (0.85 * fcd i))))).

(** The characteristic plastic resistance as the specification words it:
    the three zones weighted by the nominal strengths. *)
Definition Npl_rk_nominal (i : inputs) : R :=
  fy i * A_st' i + fs i * As_b' i + fc i * A_c i.

(** A list of numbers that never goes up from one entry to the next. *)
Fixpoint non_increasing (l : list R) : Prop :=
  match l with
  | [] => True
  | x :: l' =>
      match l' with
      | [] => True
      | y :: _ => y <= x /\ non_increasing l'
      end
  end.

(** The 300x300 mm HE column of the end-to-end scenario, 4 m long, with a
    reinforcement of 12.57 cm2 and 500 cm4. *)
Definition he_300 : inputs := call 4 300 300 149.8 19340 12.57 500 355 30.

(** The same profile and reinforcement in a 100x100 mm section: the steel
    does not fit into the gross section. *)
Definition he_100 : inputs := call 4 100 100 149.8 19340 12.57 500 355 30.

(** The 300x300 mm column with a reinforcement strength of 50000 MPa. *)
Definition he_300_strong_bars : inputs :=
  {| L := 4; b := 300; h := 300; A_st := 149.8; I_st := 19340; As_b := 12.57;
     I_by := 500; fy := 355; fc := 30; fs := 50000; Ec := 34; Es := 200 |}.

(** Twice the signed area of the triangle [p q r]: not positive when the
    path from [p] over [q] to [r] turns clockwise or goes straight. *)
Definition turn (p q r : R * R) : R :=
  (fst q - fst p) * (snd r - snd q) - (snd q - snd p) * (fst r - fst q).

(** A chain of points that turns clockwise at every inner point: the
    upper right boundary of a convex region. *)
Fixpoint clockwise (l : list (R * R)) : Prop :=
  match l with
  | [] => True
  | p :: l' =>
      match l' with
      | q :: r :: _ => turn p q r <= 0 /\ clockwise l'
      | _ => True
      end
  end.

(** The 100x100 mm section with a steel modulus of 1 GPa: the effective
    stiffness is negative. *)
Definition he_100_soft : inputs :=
  {| L := 4; b := 100; h := 100; A_st := 149.8; I_st := 19340; As_b := 12.57;
     I_by := 500; fy := 355; fc := 30; fs := 500; Ec := 34; Es := 1 |}.

(** The 300x300 mm column, 8 m long and with other moduli and inertias. *)
Definition he_300_long : inputs :=
  {| L := 8; b := 300; h := 300; A_st := 149.8; I_st := 25170; As_b := 12.57;
     I_by := 800; fy := 355; fc := 30; fs := 500; Ec := 30; Es := 210 |}.

(** Every argument of the call is positive. *)
Definition positive_inputs (i : inputs) : Prop :=
  0 < L i /\ 0 < b i /\ 0 < h i /\ 0 < A_st i /\ 0 < I_st i /\
  0 < As_b i /\ 0 < I_by i /\ 0 < fy i /\ 0 < fc i /\ 0 < fs i /\
  0 < Ec i /\ 0 < Es i.

(** * The other modules of the repository *)

(** ** propiedades_ipe.py and I_profil_inertia_yy.py

    Both files define [propiedades_ipe]; it prints the area and the
    inertia of an I profile and returns nothing.  The model returns the
    two printed values (before [:.2f] formatting). *)

Module Propiedades_ipe.

Definition propiedades_ipe (hw tw bf tf : R) : list (string * R) :=
  let hw := hw - 2 * tf in
  let A_perfil := 2 * bf * tf + hw * tw in
  let I_web := 1 / 12 * tw * hw ^ 3 in
  let I_flange := 1 / 12 * bf * tf ^ 3 in
  let a_d2 := (bf * tf) * ((hw + tf) / 2) ^ 2 in
  let I_yy := I_web + 2 * I_flange + 2 * a_d2 in
  [ ("A", A_perfil); ("Iy", I_yy) ].

End Propiedades_ipe.

Module I_profil_inertia_yy.

Definition propiedades_ipe (hw tw bf tf : R) : list (string * R) :=
  let hw := hw - 2 * tf in
  let I_flange := 1 / 12 * bf * tf ^ 3 in
  let I_web := 1 / 12 * tw * hw ^ 3 in
  let a_d2 := (bf * tf) * ((hw + tf) / 2) ^ 2 in
  let A_p := bf * tf * 2 + hw * tw in
  let I_yy := 2 * I_flange + I_web + 2 * a_d2 in
  [ ("A", A_p); ("Iy", I_yy) ].

End I_profil_inertia_yy.

(** ** beams_analysis_test.py *)

(** [min] and [max] of a list: the first element, replaced by each later
    one that is smaller (larger); an empty list is a [ValueError]. *)
Definition py_min (l : list R) : result R :=
  match l with
  | [] => Raise (ValueError "min() arg is an empty sequence")
  | x :: l' =>
      Ok (fold_left (fun cur item => if Rlt_dec item cur then item else cur) l' x)
  end.

Definition py_max (l : list R) : result R :=
  match l with
  | [] => Raise (ValueError "max() arg is an empty sequence")
  | x :: l' =>
      Ok (fold_left (fun cur item => if Rgt_dec item cur then item else cur) l' x)
  end.

(** The dict handed to [pd.DataFrame], column by column. *)
Record summary : Type := {
  Quantity : list string;
  Minimum : list R;
  Maximum : list R
}.

Definition create_summary_table (shear_data moment_data : list (R * R))
  : result summary :=
  let shear_values := map snd shear_data in
  let moment_values := map snd moment_data in
  min_v <- py_min shear_values ;;
  min_m <- py_min moment_values ;;
  max_v <- py_max shear_values ;;
  max_m <- py_max moment_values ;;
  Ok {| Quantity := ["Shear Force (V)"; "Moment (M)"];
        Minimum := [min_v; min_m];
        Maximum := [max_v; max_m] |}.

(** One of the two loops of [get_shear_moment_at_x]: the value of the
    first pair whose abscissa is at least [x_offset], [None] without one. *)
Fixpoint first_at_or_after (x_offset : R) (data : list (R * R)) : option R :=
  match data with
  | [] => None
  | (x, v) :: data' =>
      if Rge_dec x x_offset then Some v else first_at_or_after x_offset data'
  end.

Definition get_shear_moment_at_x (x_offset : R)
  (shear_data moment_data : list (R * R)) : option R * option R :=
  let shear := first_at_or_after x_offset shear_data in
  let moment := first_at_or_after x_offset moment_data in
  (shear, moment).

(** [np.linspace(start, stop, num)] for [num] of at least 2. *)
Definition linspace (start stop : R) (num : nat) : list R :=
  let step := (stop - start) / INR (num - 1) in
  map (fun k => start + INR k * step) (seq 0 num).

(** [enumerate]. *)
Definition enumerate {A : Type} (l : list A) : list (nat * A) :=
  combine (seq 0 (length l)) l.

(** Lines 64 to 79 and 105 of [continuous_beam].  The analysed PyNite
    model of lines 32 to 61 enters through what the loop reads from it:
    the length of a member and its shear and moment at an abscissa. *)
Section ContinuousBeam.
Variable member_L : string -> R.
Variable member_shear : string -> R -> R.
Variable member_moment : string -> R -> R.

Definition continuous_beam (l1 l2 l3 : R)
  : list R * list (R * R) * list (R * R) :=
  let members := ["M0"; "M1"; "M2"] in
  let num_points := 50%nat in
  let x_offsets := [0; l1; l1 + l2] in
  let sample (f : string -> R -> R) (im : nat * string) : list (R * R) :=
    let i := fst im in
    let member := snd im in
    let member_length := member_L member in
    let x_positions := linspace 0 member_length num_points in
    map (fun x => (x + nth i x_offsets 0, f member x)) x_positions in
  let shear_data := flat_map (sample member_shear) (enumerate members) in
  let moment_data := flat_map (sample member_moment) (enumerate members) in
  (x_offsets, shear_data, moment_data).

(** The samples the loop takes on one member, shifted by its offset. *)
Definition span_samples (f : string -> R -> R) (member : string) (offset : R)
  : list (R * R) :=
  map (fun x => (x + offset, f member x)) (linspace 0 (member_L member) 50).

End ContinuousBeam.

(** A beam of spans 4, 5 and 3 with made-up diagrams, for examples. *)
Definition example_L (member : string) : R :=
  if String.eqb member "M0" then 4
  else if String.eqb member "M1" then 5 else 3.

Definition example_shear (member : string) (x : R) : R :=
  example_L member / 2 - x.

Definition example_moment (member : string) (x : R) : R :=
  x * (example_L member - x) / 2.

(** A list of numbers that never goes down from one entry to the next. *)
Fixpoint non_decreasing (l : list R) : Prop :=
  match l with
  | [] => True
  | x :: l' =>
      match l' with
      | [] => True
      | y :: _ => x <= y /\ non_decreasing l'
      end
  end.

(** ** Photovoltaics_API.py and NASA_API_Solar_Radiation_list.py *)

(** The exceptions of these two modules: the built-in ones of [exn], the
    plain [Exception] of line 25 and the [KeyError] of a missing key. *)
Inductive pyexn : Type :=
| Builtin (e : exn)
| Exception (msg : string)
| KeyError (key : string).

Inductive outcome (A : Type) : Type :=
| Return (a : A)
| Throw (e : pyexn).

Arguments Return {A} a.
Arguments Throw {A} e.

Definition outcome_bind {A B : Type} (m : outcome A) (k : A -> outcome B)
  : outcome B :=
  match m with
  | Return a => k a
  | Throw e => Throw e
  end.

Notation "x <~ m ;; k" := (outcome_bind m (fun x => k))
  (at level 61, m at next level, right associativity).

Definition lift {A : Type} (m : result A) : outcome A :=
  match m with
  | Ok a => Return a
  | Raise e => Throw (Builtin e)
  end.

(** [d[key]] on a dict. *)
Definition subscript {V : Type} (d : list (string * V)) (key : string)
  : outcome V :=
  match dict_get key d with
  | Some v => Return v
  | None => Throw (KeyError key)
  end.

(** The reply of the server as far as the code reads it: the status and
    the JSON body, objects nested three deep above the daily series.  A
    request that fails to connect and a body of another shape are outside
    the model. *)
Record response : Type := {
  status_code : Z;
  json : list (string * list (string * list (string * list (string * R))))
}.

(** [sum] of floats, starting from 0. *)
Definition py_sum (l : list R) : R := fold_left Rplus l 0.

Section Requests.
(** [requests.get] on the URL built from [lat] and [lon]. *)
Variable requests_get : R -> R -> response.

(** The same function in both files. *)
Definition get_global_radiation (lat lon : R) : outcome R :=
  let response := requests_get lat lon in
  if Z.eqb (status_code response) 200 then
    let data := json response in
    properties <~ subscript data "properties" ;;
    parameter <~ subscript properties "parameter" ;;
    radiation <~ subscript parameter "ALLSKY_SFC_SW_DWN" ;;
    if Nat.eqb (length radiation) 0
    then Throw (Builtin (ZeroDivisionError "division by zero"))
    else Return (py_sum (map snd radiation) / INR (length radiation))
  else Throw (Exception "Error fetching data from the API").

(** Photovoltaics_API.py *)
Definition pv_module_area (W_hh W_car eta_pv lat lon eta_tilt : R) : outcome R :=
  q_global <~ get_global_radiation lat lon ;;
  let W_total := W_hh + W_car in
  W_pv_needed <~ lift (float_div W_total eta_pv) ;;
  let q_tilt := q_global * eta_tilt in
  A <~ lift (float_div W_pv_needed q_tilt) ;;
  Return A.

(** NASA_API_Solar_Radiation_list.py *)
Definition calculate_pv_module_area_tilt_lat_lon
  (W_el_hh W_car s eta_laden eta_pv lat lon eta_tilt : R) : outcome R :=
  q_global <~ get_global_radiation lat lon ;;
  let W_car_day := W_car * (s / 100) in
  W_car_eff <~ lift (float_div W_car_day eta_laden) ;;
  let W_total := W_el_hh + W_car_eff in
  W_pv_needed <~ lift (float_div W_total eta_pv) ;;
  let q_tilt := q_global * eta_tilt in
  A <~ lift (float_div W_pv_needed q_tilt) ;;
  Return A.

End Requests.

(** The daily series the function averages, when the three keys are
    there. *)
Definition series_of (r : response) : option (list (string * R)) :=
  match dict_get "properties" (json r) with
  | Some properties =>
      match dict_get "parameter" properties with
      | Some parameter => dict_get "ALLSKY_SFC_SW_DWN" parameter
      | None => None
      end
  | None => None
  end.

(** Two replies for examples: three days of data, and a refusal. *)
Definition example_reply (lat lon : R) : response :=
  {| status_code := 200;
     json := [("properties",
               [("parameter",
                 [("ALLSKY_SFC_SW_DWN",
                   [("20230101", 4); ("20230102", 6); ("20230103", 5)])])])] |}.

Definition example_refusal (lat lon : R) : response :=
  {| status_code := 404; json := [] |}.

(** ** Operators: when they return *)

Lemma float_div_ok (x y : R) : y <> 0 -> float_div x y = Ok (x / y).
Proof.
  intros Hy. unfold float_div. destruct (Req_dec_T y 0); [contradiction | reflexivity].
Qed.

Lemma math_sqrt_ok (x : R) : 0 <= x -> math_sqrt x = Ok (sqrt x).
Proof.
  intros Hx. unfold math_sqrt. destruct (Rlt_dec x 0); [lra | reflexivity].
Qed.

Lemma pow_half_float (x : R) : 0 <= x -> pow_half x = PyFloat (sqrt x).
Proof.
  intros Hx. unfold pow_half. destruct (Rlt_dec x 0); [lra | reflexivity].
Qed.

Lemma pow_half_complex (x : R) : x < 0 -> pow_half x = PyComplex 0 (sqrt (- x)).
Proof.
  intros Hx. unfold pow_half. destruct (Rlt_dec x 0); [reflexivity | lra].
Qed.

(** ** The table of curves *)

Lemma dict_get_lines_valid (c : string) :
  In c valid_curves ->
  exists a, In a alphas /\
            dict_get c lines = Some {| alpha := a; lambda_1 := 1.0 |}.
Proof.
  unfold valid_curves, alphas. simpl.
  intros [<- | [<- | [<- | [<- | []]]]]; eexists; (split; [| reflexivity]); auto 6.
Qed.

Lemma dict_get_lines_invalid (c : string) :
  ~ In c valid_curves -> dict_get c lines = None.
Proof.
  unfold valid_curves. simpl. intros Hc.
  destruct (String.eqb_spec c "a") as [-> | _]; [exfalso; apply Hc; auto 6 |].
  destruct (String.eqb_spec c "b") as [-> | _]; [exfalso; apply Hc; auto 6 |].
  destruct (String.eqb_spec c "c") as [-> | _]; [exfalso; apply Hc; auto 6 |].
  destruct (String.eqb_spec c "d") as [-> | _]; [exfalso; apply Hc; auto 6 |].
  reflexivity.
Qed.

Lemma alphas_range (a : R) : In a alphas -> 0 < a <= 1.
Proof.
  unfold alphas. simpl. intros [<- | [<- | [<- | [<- | []]]]]; lra.
Qed.

(** ** The buckling curve formula over the reals *)

Section Curve.
Variable a : R.
Hypothesis a_range : 0 < a <= 1.

Lemma phi_gt_lambda (lam : R) : 0 <= lam -> lam < phi_of a lam.
Proof.
  intros Hl. unfold phi_of.
  destruct (Rle_lt_dec 0.5 lam) as [H | H].
  - assert (0 < a * (lam - 0.2)) by (apply Rmult_lt_0_compat; lra).
    pose proof (pow2_ge_0 (lam - 1)). lra.
  - assert (0.25 < (lam - 1) ^ 2) by nra.
    assert (- 0.2 <= a * (lam - 0.2)) by nra. lra.
Qed.

Lemma phi_pos (lam : R) : 0 <= lam -> 0 < phi_of a lam.
Proof. intros Hl. pose proof (phi_gt_lambda lam Hl). lra. Qed.

Lemma disc_pos (lam : R) : 0 <= lam -> 0 < phi_of a lam ^ 2 - lam ^ 2.
Proof.
  intros Hl. pose proof (phi_gt_lambda lam Hl). nra.
Qed.

Lemma denom_pos (lam : R) :
  0 <= lam -> 0 < phi_of a lam + sqrt (phi_of a lam ^ 2 - lam ^ 2).
Proof.
  intros Hl. pose proof (phi_pos lam Hl).
  pose proof (sqrt_pos (phi_of a lam ^ 2 - lam ^ 2)). lra.
Qed.

(** The denominator is the larger root of [x^2 - 2*phi*x + lam^2]:
    whatever makes the quadratic non-positive lies below it. *)
Lemma below_denom (lam x : R) :
  0 <= lam ->
  x ^ 2 - 2 * phi_of a lam * x + lam ^ 2 <= 0 ->
  x <= phi_of a lam + sqrt (phi_of a lam ^ 2 - lam ^ 2).
Proof.
  intros Hl Hq.
  pose proof (disc_pos lam Hl) as Hd.
  pose proof (sqrt_pos (phi_of a lam ^ 2 - lam ^ 2)) as Hs.
  pose proof (sqrt_sqrt (phi_of a lam ^ 2 - lam ^ 2) (Rlt_le _ _ Hd)) as Hss.
  set (r := sqrt (phi_of a lam ^ 2 - lam ^ 2)) in *.
  set (p := phi_of a lam) in *.
  destruct (Rle_lt_dec x (p + r)) as [| Hgt]; [assumption | exfalso].
  assert (0 < x - p - r) by lra.
  nra.
Qed.

Lemma denom_quadratic (lam : R) :
  0 <= lam ->
  let D := phi_of a lam + sqrt (phi_of a lam ^ 2 - lam ^ 2) in
  D ^ 2 - 2 * phi_of a lam * D + lam ^ 2 = 0.
Proof.
  intros Hl D. subst D.
  pose proof (disc_pos lam Hl) as Hd.
  pose proof (sqrt_sqrt (phi_of a lam ^ 2 - lam ^ 2) (Rlt_le _ _ Hd)) as Hss.
  nra.
Qed.

(** From slenderness 0.2 on the denominator is at least 1. *)
Lemma denom_ge_1 (lam : R) :
  0.2 <= lam -> 1 <= phi_of a lam + sqrt (phi_of a lam ^ 2 - lam ^ 2).
Proof.
  intros Hl. apply below_denom; [lra |].
  replace (1 ^ 2 - 2 * phi_of a lam * 1 + lam ^ 2)
    with (- (a * (lam - 0.2))) by (unfold phi_of; nra).
  assert (0 <= a * (lam - 0.2)) by (apply Rmult_le_pos; lra).
  lra.
Qed.

(** Up to slenderness [5 - a] it is at least its value at 0. *)
Lemma denom_ge_start (lam : R) :
  0 <= lam <= 5 - a ->
  1 - 0.2 * a <= phi_of a lam + sqrt (phi_of a lam ^ 2 - lam ^ 2).
Proof.
  intros Hl. apply below_denom; [lra |].
  replace ((1 - 0.2 * a) ^ 2 - 2 * phi_of a lam * (1 - 0.2 * a) + lam ^ 2)
    with (- (a * lam * ((1 - 0.2 * a) - 0.2 * lam)))
    by (unfold phi_of; nra).
  assert (0 <= a * lam) by (apply Rmult_le_pos; lra).
  assert (0 <= a * lam * ((1 - 0.2 * a) - 0.2 * lam))
    by (apply Rmult_le_pos; lra).
  lra.
Qed.

Lemma denom_at_0 :
  phi_of a 0 + sqrt (phi_of a 0 ^ 2 - 0 ^ 2) = phi_of a 0 + phi_of a 0.
Proof.
  pose proof (phi_pos 0 (Rle_refl 0)) as Hp.
  replace (phi_of a 0 ^ 2 - 0 ^ 2) with (phi_of a 0 ^ 2) by ring.
  rewrite sqrt_pow2 by lra. reflexivity.
Qed.

Lemma denom_monotone (s1 s2 : R) :
  0 <= s1 -> s1 <= s2 ->
  phi_of a s1 + sqrt (phi_of a s1 ^ 2 - s1 ^ 2)
  <= phi_of a s2 + sqrt (phi_of a s2 ^ 2 - s2 ^ 2).
Proof.
  intros H1 H12.
  assert (H2 : 0 <= s2) by lra.
  pose proof (denom_quadratic s1 H1) as Hq. cbv zeta in Hq.
  pose proof (denom_pos s1 H1) as HD.
  pose proof (sqrt_pos (phi_of a s2 ^ 2 - s2 ^ 2)) as Hr2.
  pose proof (sqrt_pos (phi_of a s1 ^ 2 - s1 ^ 2)) as Hr1.
  set (D1 := phi_of a s1 + sqrt (phi_of a s1 ^ 2 - s1 ^ 2)) in *.
  assert (Hkey : (a + s1 + s2) * D1 >= s1 + s2 ->
                 D1 ^ 2 - 2 * phi_of a s2 * D1 + s2 ^ 2 <= 0).
  { intros Hk.
    replace (D1 ^ 2 - 2 * phi_of a s2 * D1 + s2 ^ 2)
      with ((D1 ^ 2 - 2 * phi_of a s1 * D1 + s1 ^ 2)
            + (s2 - s1) * ((s1 + s2) - (a + s1 + s2) * D1))
      by (unfold phi_of; nra).
    rewrite Hq. nra. }
  destruct (Rle_lt_dec 0.2 s1) as [Hs | Hs].
  - (* the denominator at s1 is at least 1 *)
    apply below_denom; [assumption |]. apply Hkey.
    pose proof (denom_ge_1 s1 Hs). fold D1 in H. nra.
  - destruct (Rle_lt_dec (s1 + s2) (5 - a)) as [Hsum | Hsum].
    + apply below_denom; [assumption |]. apply Hkey.
      assert (Hst : 0 <= s1 <= 5 - a) by lra.
      pose proof (denom_ge_start s1 Hst). fold D1 in H. nra.
    + (* s2 is large: the denominator at s1 is below phi at s2 *)
      assert (HD1 : D1 <= 2 * phi_of a s1).
      { subst D1.
        assert (sqrt (phi_of a s1 ^ 2 - s1 ^ 2) <= phi_of a s1); [| lra].
        pose proof (phi_pos s1 H1).
        rewrite <- (sqrt_pow2 (phi_of a s1)) at 2 by lra.
        apply sqrt_le_1_alt. nra. }
      assert (2 * phi_of a s1 <= phi_of a s2) by (unfold phi_of; nra).
      lra.
Qed.

Lemma chi_of_pos (lam : R) : 0 <= lam -> 0 < chi_of a lam.
Proof.
  intros Hl. unfold chi_of. pose proof (denom_pos lam Hl).
  apply Rdiv_lt_0_compat; lra.
Qed.

Lemma chi_of_le_1 (lam : R) : 0.2 <= lam -> chi_of a lam <= 1.
Proof.
  intros Hl. unfold chi_of. pose proof (denom_ge_1 lam Hl) as HD.
  apply (Rmult_le_reg_r (phi_of a lam + sqrt (phi_of a lam ^ 2 - lam ^ 2))); [lra |].
  unfold Rdiv. rewrite Rmult_assoc, Rinv_l by lra. lra.
Qed.

Lemma chi_of_antitone (s1 s2 : R) :
  0 <= s1 -> s1 <= s2 -> chi_of a s2 <= chi_of a s1.
Proof.
  intros H1 H12. unfold chi_of, Rdiv. rewrite !Rmult_1_l.
  apply Rinv_le_contravar; [apply denom_pos; assumption |].
  apply denom_monotone; assumption.
Qed.

Lemma chi_of_0 : chi_of a 0 = 1 / (phi_of a 0 + phi_of a 0).
Proof. unfold chi_of. rewrite denom_at_0. reflexivity. Qed.

Lemma chi_of_0_gt_1 : 1 < chi_of a 0.
Proof.
  rewrite chi_of_0. unfold phi_of.
  apply (Rmult_lt_reg_r (0.5 * (1 + a * (0 - 0.2) + 0 ^ 2)
                          + 0.5 * (1 + a * (0 - 0.2) + 0 ^ 2))); [lra |].
  unfold Rdiv. rewrite Rmult_assoc, Rinv_l by lra. lra.
Qed.

End Curve.

(** ** chi_coeff, evaluated *)

Lemma alpha_of_valid (c : string) :
  In c valid_curves ->
  0 < alpha_of c <= 1 /\
  dict_get c lines = Some {| alpha := alpha_of c; lambda_1 := 1.0 |}.
Proof.
  intros Hc. destruct (dict_get_lines_valid c Hc) as (a & Ha & Hget).
  unfold alpha_of. rewrite Hget. simpl. split; [apply alphas_range, Ha | reflexivity].
Qed.

(** With a curve of the table, line 28 divides by 1.0 and lines 29 and 30
    are [phi_of] and one of the two closed forms. *)
Lemma chi_coeff_unfold (lam : R) (c : string) :
  In c valid_curves ->
  chi_coeff lam c =
  num_div 1 (float_add (phi_of (alpha_of c) lam)
                       (pow_half (phi_of (alpha_of c) lam ^ 2 - lam ^ 2))).
Proof.
  intros Hc. destruct (alpha_of_valid c Hc) as [_ Hget].
  unfold chi_coeff. rewrite Hget. cbn [alpha lambda_1].
  rewrite float_div_ok by lra. cbn [bind].
  replace (lam / 1.0) with lam by lra. reflexivity.
Qed.

Lemma chi_coeff_float (lam : R) (c : string) :
  In c valid_curves ->
  0 <= phi_of (alpha_of c) lam ^ 2 - lam ^ 2 ->
  chi_coeff lam c = Ok (PyFloat (chi_of (alpha_of c) lam)).
Proof.
  intros Hc Hd. destruct (alpha_of_valid c Hc) as [Ha _].
  rewrite chi_coeff_unfold by assumption.
  rewrite pow_half_float by assumption. cbn [float_add num_div].
  rewrite float_div_ok; [reflexivity |].
  (* the denominator vanishes only at slenderness 0, where phi is positive *)
  set (p := phi_of (alpha_of c) lam) in *.
  pose proof (sqrt_pos (p ^ 2 - lam ^ 2)) as Hs.
  pose proof (sqrt_sqrt (p ^ 2 - lam ^ 2) Hd) as Hss.
  intros H0.
  assert (Hr : sqrt (p ^ 2 - lam ^ 2) = - p) by lra.
  rewrite Hr in Hss, Hs.
  assert (Hl : lam * lam = 0) by nra.
  apply Rmult_integral in Hl.
  assert (lam = 0) by tauto. subst lam.
  pose proof (phi_pos (alpha_of c) Ha 0 (Rle_refl 0)). fold p in H. lra.
Qed.

Lemma chi_coeff_complex (lam : R) (c : string) :
  In c valid_curves ->
  phi_of (alpha_of c) lam ^ 2 - lam ^ 2 < 0 ->
  chi_coeff lam c = Ok (chi_complex_of (alpha_of c) lam).
Proof.
  intros Hc Hd.
  rewrite chi_coeff_unfold by assumption.
  rewrite pow_half_complex by assumption. cbn [float_add num_div].
  set (p := phi_of (alpha_of c) lam) in *.
  assert (Him : 0 < sqrt (- (p ^ 2 - lam ^ 2))) by (apply sqrt_lt_R0; lra).
  destruct (Req_dec_T ((p + 0) ^ 2 + sqrt (- (p ^ 2 - lam ^ 2)) ^ 2) 0) as [E | _].
  - exfalso. pose proof (pow2_ge_0 (p + 0)).
    assert (0 < sqrt (- (p ^ 2 - lam ^ 2)) ^ 2) by (apply pow_lt; assumption).
    lra.
  - reflexivity.
Qed.

Lemma chi_coeff_nonneg_slenderness (lam : R) (c : string) :
  In c valid_curves -> 0 <= lam ->
  chi_coeff lam c = Ok (PyFloat (chi_of (alpha_of c) lam)).
Proof.
  intros Hc Hl. destruct (alpha_of_valid c Hc) as [Ha _].
  apply chi_coeff_float; [assumption |].
  apply Rlt_le, disc_pos; assumption.
Qed.

Lemma chi_coeff_returns (lam : R) (c : string) :
  In c valid_curves -> exists v, chi_coeff lam c = Ok v.
Proof.
  intros Hc.
  destruct (Rlt_le_dec (phi_of (alpha_of c) lam ^ 2 - lam ^ 2) 0) as [Hd | Hd].
  - eexists. apply chi_coeff_complex; assumption.
  - eexists. apply chi_coeff_float; assumption.
Qed.

(** ** composite_HE_ec4, evaluated *)

Lemma Ec_eff_eq (i : inputs) : Ec_eff i = Ec i * 1e3 * (22 / 57).
Proof. unfold Ec_eff, E_cm, N_gd, N_ed, phi_t. lra. Qed.

Lemma composite_HE_ec4_returns (i : inputs) :
  0 < L i -> 0 < EI_eff i -> 0 <= Npl_rk i ->
  0 < fy i -> 0 < fc i -> t_w <= b_c i ->
  composite_HE_ec4 i = Ok (report i (N_cr_of i) (h_n_of i)).
Proof.
  intros HL HEI HN Hfy Hfc Hb.
  assert (HL2 : 0 < L i ^ 2) by (apply pow_lt; assumption).
  assert (Hpi : 0 < PI ^ 2) by (apply pow_lt, PI_RGT_0).
  assert (Hcr : 0 < N_cr_of i).
  { unfold N_cr_of. apply Rdiv_lt_0_compat; [apply Rmult_lt_0_compat |]; assumption. }
  assert (Hq : 0 <= Npl_rk i / N_cr_of i).
  { unfold Rdiv. apply Rmult_le_pos; [assumption |].
    apply Rlt_le, Rinv_0_lt_compat, Hcr. }
  assert (Hfcd : 0 < 0.85 * fcd i) by (unfold fcd, gamma_C; lra).
  assert (Hfyd : 0 < fyd i) by (unfold fyd, gamma_M; lra).
  assert (Hr : 0 < fyd i / (0.85 * fcd i)) by (apply Rdiv_lt_0_compat; assumption).
  assert (Hden : 0 < 2 * (b_c i - t_w + 2 * t_w * (fyd i / (0.85 * fcd i)))).
  { assert (0 < t_w * (fyd i / (0.85 * fcd i)))
      by (apply Rmult_lt_0_compat; [unfold t_w; lra | assumption]).
    lra. }
  unfold composite_HE_ec4.
  rewrite float_div_ok by lra. cbn [bind]. fold (N_cr_of i).
  rewrite float_div_ok by lra. cbn [bind].
  rewrite math_sqrt_ok by assumption. cbn [bind].
  rewrite chi_coeff_nonneg_slenderness
    by (simpl; auto using sqrt_pos). cbn [bind].
  rewrite float_div_ok by lra. cbn [bind].
  rewrite float_div_ok by lra. cbn [bind].
  reflexivity.
Qed.

Lemma he_100_values :
  A_c he_100 < 0 /\ I_c he_100 < 0 /\ 0 < EI_eff he_100 /\ 0 <= Npl_rk he_100.
Proof.
  unfold Npl_rk, EI_eff. rewrite Ec_eff_eq.
  unfold I_c, A_c, A_st', As_b', I_s, I_b, b_c, h_c, E_sm, fsd, gamma_B, he_100, call.
  cbn [L b h A_st I_st As_b I_by fy fc fs Ec Es].
  repeat split; lra.
Qed.

Lemma he_300_values :
  0 <= A_c he_300 /\ 0 <= I_c he_300 /\ 0 < EI_eff he_300 /\ 0 <= Npl_rk he_300.
Proof.
  unfold Npl_rk, EI_eff. rewrite Ec_eff_eq.
  unfold I_c, A_c, A_st', As_b', I_s, I_b, b_c, h_c, E_sm, fsd, gamma_B, he_300, call.
  cbn [L b h A_st I_st As_b I_by fy fc fs Ec Es].
  repeat split; lra.
Qed.

Lemma he_100_positive : positive_inputs he_100.
Proof. unfold positive_inputs, he_100, call. simpl. repeat split; lra. Qed.

Lemma he_300_positive : positive_inputs he_300.
Proof. unfold positive_inputs, he_300, call. simpl. repeat split; lra. Qed.

Lemma he_100_returns :
  composite_HE_ec4 he_100 = Ok (report he_100 (N_cr_of he_100) (h_n_of he_100)).
Proof.
  destruct he_100_values as (_ & _ & HEI & HN).
  apply composite_HE_ec4_returns; try assumption;
    unfold t_w, b_c, he_100, call; simpl; lra.
Qed.

(** ** The buckling curve: claims *)

(** C8. A curve symbol outside a, b, c, d makes [chi_coeff] raise the
    invalid-curve error (the [ValueError] of line 24) at every slenderness;
    with one of the four symbols it raises nothing and returns a number. *)
Theorem chi_coeff_invalid_curve (lam : R) (c : string) :
  (~ In c valid_curves ->
   chi_coeff lam c = Raise (ValueError invalid_curve_msg)) /\
  (In c valid_curves -> exists v, chi_coeff lam c = Ok v).
Proof.
  split.
  - intros Hc. unfold chi_coeff. rewrite dict_get_lines_invalid by assumption.
    reflexivity.
  - apply chi_coeff_returns.
Qed.

Lemma chi_coeff_invalid_curve_witness :
  chi_coeff 1 "e" = Raise (ValueError invalid_curve_msg) /\
  exists v, chi_coeff 1 "d" = Ok v.
Proof.
  split.
  - apply (proj1 (chi_coeff_invalid_curve 1 "e")).
    unfold valid_curves. simpl. intros [H | [H | [H | [H | []]]]]; discriminate H.
  - apply (proj2 (chi_coeff_invalid_curve 1 "d")).
    unfold valid_curves. simpl. auto 6.
Defined.

(** C10. For a slenderness that is not negative and a curve of the table
    (imperfection factor 0.21, 0.34, 0.49 or 0.76), [phi] is at least the
    slenderness, the argument of the square root is not negative, and
    [chi_coeff] returns a positive real number. *)
Theorem chi_coeff_root_argument_nonneg (lam : R) (c : string) :
  0 <= lam -> In c valid_curves ->
  In (alpha_of c) alphas /\
  lam <= phi_of (alpha_of c) lam /\
  0 <= phi_of (alpha_of c) lam ^ 2 - lam ^ 2 /\
  chi_coeff lam c = Ok (PyFloat (chi_of (alpha_of c) lam)) /\
  0 < chi_of (alpha_of c) lam.
Proof.
  intros Hl Hc. destruct (alpha_of_valid c Hc) as [Ha _].
  split; [| split; [| split; [| split]]].
  - destruct (dict_get_lines_valid c Hc) as (a & Hin & Hget).
    unfold alpha_of. rewrite Hget. exact Hin.
  - apply Rlt_le, phi_gt_lambda; assumption.
  - apply Rlt_le, disc_pos; assumption.
  - apply chi_coeff_nonneg_slenderness; assumption.
  - apply chi_of_pos; assumption.
Qed.

Lemma chi_coeff_root_argument_nonneg_witness :
  chi_coeff 1 "b" = Ok (PyFloat (chi_of (alpha_of "b") 1)) /\
  0 < chi_of (alpha_of "b") 1.
Proof.
  assert (H1 : 0 <= 1) by lra.
  assert (Hb : In "b" valid_curves) by (unfold valid_curves; simpl; auto).
  destruct (chi_coeff_root_argument_nonneg 1 "b" H1 Hb) as (_ & _ & _ & He & Hp).
  split; assumption.
Defined.

(** C7. For a fixed curve of the table the reduction factor does not grow
    with the slenderness on the interval from 0 to 3. *)
Theorem chi_coeff_non_increasing (s1 s2 : R) (c : string) :
  In c valid_curves -> 0 <= s1 -> s1 <= s2 -> s2 <= 3 ->
  exists v1 v2,
    chi_coeff s1 c = Ok (PyFloat v1) /\
    chi_coeff s2 c = Ok (PyFloat v2) /\
    v2 <= v1.
Proof.
  intros Hc H1 H12 _. destruct (alpha_of_valid c Hc) as [Ha _].
  exists (chi_of (alpha_of c) s1), (chi_of (alpha_of c) s2).
  split; [| split].
  - apply chi_coeff_nonneg_slenderness; assumption.
  - apply chi_coeff_nonneg_slenderness; [assumption | lra].
  - apply chi_of_antitone; assumption.
Qed.

Lemma chi_coeff_non_increasing_witness :
  exists v1 v2,
    chi_coeff 0.5 "c" = Ok (PyFloat v1) /\
    chi_coeff 2 "c" = Ok (PyFloat v2) /\
    v2 <= v1.
Proof.
  apply (chi_coeff_non_increasing 0.5 2 "c").
  - unfold valid_curves. simpl. auto.
  - lra.
  - lra.
  - lra.
Defined.

(** C4, as the specification states it, fails at slenderness 0 on curve
    a: the factor returned there is above 1. *)
Lemma chi_coeff_above_1_at_0 :
  exists v, chi_coeff 0 "a" = Ok (PyFloat v) /\ ~ (0 < v <= 1).
Proof.
  assert (Ha : In "a" valid_curves) by (unfold valid_curves; simpl; auto).
  exists (chi_of (alpha_of "a") 0). split.
  - apply chi_coeff_nonneg_slenderness; [assumption | lra].
  - pose proof (chi_of_0_gt_1 (alpha_of "a") (proj1 (alpha_of_valid "a" Ha))).
    lra.
Qed.

(** C4, amended. For a slenderness that is not negative and a curve of
    the table, the reduction factor is positive, it is at most 1 from
    slenderness 0.2 on, and it never exceeds its value at slenderness 0,
    which is exactly [1/(phi+phi)] with [phi = 0.5*(1-0.2*alpha)] and is
    above 1. *)
Theorem chi_coeff_range (lam : R) (c : string) :
  0 <= lam -> In c valid_curves ->
  let a := alpha_of c in
  let phi := 0.5 * (1 - 0.2 * a) in
  chi_coeff lam c = Ok (PyFloat (chi_of a lam)) /\
  0 < chi_of a lam /\
  (0.2 <= lam -> chi_of a lam <= 1) /\
  chi_coeff 0 c = Ok (PyFloat (1 / (phi + phi))) /\
  chi_of a lam <= 1 / (phi + phi) /\
  1 < 1 / (phi + phi).
Proof.
  intros Hl Hc a phi. destruct (alpha_of_valid c Hc) as [Ha _]. fold a in Ha.
  assert (Hphi : phi_of a 0 = phi) by (unfold phi_of, phi; lra).
  assert (H0 : chi_of a 0 = 1 / (phi + phi))
    by (rewrite chi_of_0 by assumption; rewrite Hphi; reflexivity).
  split; [| split; [| split; [| split; [| split]]]].
  - apply chi_coeff_nonneg_slenderness; assumption.
  - apply chi_of_pos; assumption.
  - intros H02. apply chi_of_le_1; assumption.
  - rewrite <- H0. apply chi_coeff_nonneg_slenderness; [assumption | lra].
  - rewrite <- H0. apply chi_of_antitone; [assumption | lra | assumption].
  - rewrite <- H0. apply chi_of_0_gt_1; assumption.
Qed.

Lemma chi_coeff_range_witness :
  exists v, chi_coeff 0.5 "c" = Ok (PyFloat v) /\ 0 < v <= 1.
Proof.
  assert (Hl : 0 <= 0.5) by lra.
  assert (Hc : In "c" valid_curves) by (unfold valid_curves; simpl; auto).
  destruct (chi_coeff_range 0.5 "c" Hl Hc) as (He & Hp & H1 & _).
  exists (chi_of (alpha_of "c") 0.5).
  split; [exact He | split; [exact Hp | apply H1; lra]].
Defined.

(** C5, as the specification states it, fails at slenderness -1 on curve
    a: [phi^2] is below the squared slenderness and the call returns a
    complex number, no error. *)
Lemma chi_coeff_negative_root_no_error :
  phi_of (alpha_of "a") (-1) ^ 2 < (-1) ^ 2 /\
  exists re im, chi_coeff (-1) "a" = Ok (PyComplex re im) /\ im <> 0.
Proof.
  assert (Ha : In "a" valid_curves) by (unfold valid_curves; simpl; auto).
  assert (Hphi : phi_of (alpha_of "a") (-1) = 0.874)
    by (unfold phi_of, alpha_of; simpl; lra).
  assert (Hd : phi_of (alpha_of "a") (-1) ^ 2 - (-1) ^ 2 < 0)
    by (rewrite Hphi; lra).
  split; [lra |].
  rewrite (chi_coeff_complex (-1) "a" Ha Hd). unfold chi_complex_of.
  do 2 eexists. split; [reflexivity |].
  set (p := phi_of (alpha_of "a") (-1)) in *.
  assert (Him : 0 < sqrt (- (p ^ 2 - (-1) ^ 2))) by (apply sqrt_lt_R0; lra).
  assert (Hm : 0 < (p + 0) ^ 2 + sqrt (- (p ^ 2 - (-1) ^ 2)) ^ 2).
  { pose proof (pow2_ge_0 (p + 0)).
    assert (0 < sqrt (- (p ^ 2 - (-1) ^ 2)) ^ 2) by (apply pow_lt; assumption).
    lra. }
  intros E.
  assert (0 < 1 * sqrt (- (p ^ 2 - (-1) ^ 2))
              / ((p + 0) ^ 2 + sqrt (- (p ^ 2 - (-1) ^ 2)) ^ 2))
    by (apply Rdiv_lt_0_compat; lra).
  unfold Rdiv in *. rewrite Ropp_mult_distr_l_reverse in E. lra.
Qed.

(** C5, amended. [chi_coeff] has no domain check: for a curve of the
    table and a slenderness with [phi^2] below its square, the power
    [** 0.5] is complex, and the call returns the complex reciprocal of
    [phi + j*sqrt(bar_lambda^2 - phi^2)], whose imaginary part is
    negative. *)
Theorem chi_coeff_negative_root_complex (lam : R) (c : string) :
  In c valid_curves ->
  phi_of (alpha_of c) lam ^ 2 < lam ^ 2 ->
  exists re im,
    chi_coeff lam c = Ok (PyComplex re im) /\
    chi_complex_of (alpha_of c) lam = PyComplex re im /\
    im < 0.
Proof.
  intros Hc Hlt.
  assert (Hd : phi_of (alpha_of c) lam ^ 2 - lam ^ 2 < 0) by lra.
  rewrite (chi_coeff_complex lam c Hc Hd). unfold chi_complex_of.
  do 2 eexists. split; [reflexivity | split; [reflexivity |]].
  set (p := phi_of (alpha_of c) lam) in *.
  assert (Him : 0 < sqrt (- (p ^ 2 - lam ^ 2))) by (apply sqrt_lt_R0; lra).
  assert (Hm : 0 < (p + 0) ^ 2 + sqrt (- (p ^ 2 - lam ^ 2)) ^ 2).
  { pose proof (pow2_ge_0 (p + 0)).
    assert (0 < sqrt (- (p ^ 2 - lam ^ 2)) ^ 2) by (apply pow_lt; assumption).
    lra. }
  assert (0 < 1 * sqrt (- (p ^ 2 - lam ^ 2))
              / ((p + 0) ^ 2 + sqrt (- (p ^ 2 - lam ^ 2)) ^ 2))
    by (apply Rdiv_lt_0_compat; lra).
  unfold Rdiv in *. rewrite Ropp_mult_distr_l_reverse. lra.
Qed.

Lemma chi_coeff_negative_root_complex_witness :
  exists re im, chi_coeff (-1) "a" = Ok (PyComplex re im) /\ im < 0.
Proof.
  assert (Ha : In "a" valid_curves) by (unfold valid_curves; simpl; auto).
  assert (Hlt : phi_of (alpha_of "a") (-1) ^ 2 < (-1) ^ 2)
    by (unfold phi_of, alpha_of; simpl; lra).
  destruct (chi_coeff_negative_root_complex (-1) "a" Ha Hlt)
    as (re & im & He & _ & Him).
  exists re, im. split; assumption.
Defined.

Lemma recip_between (d lo hi : R) :
  0 < d -> lo * d < 1 -> 1 < hi * d -> lo < 1 / d < hi.
Proof.
  intros Hd Hlo Hhi.
  assert (E : 1 / d * d = 1) by (unfold Rdiv; rewrite Rmult_assoc, Rinv_l; lra).
  split; apply (Rmult_lt_reg_r d); lra.
Qed.

Lemma sqrt_between (x lo hi : R) :
  0 <= lo -> 0 <= hi -> lo ^ 2 < x -> x < hi ^ 2 -> lo < sqrt x < hi.
Proof.
  intros Hlo Hhi H1 H2. pose proof (pow2_ge_0 lo). split.
  - rewrite <- (sqrt_pow2 lo Hlo) at 1. apply sqrt_lt_1_alt; lra.
  - rewrite <- (sqrt_pow2 hi Hhi) at 1. apply sqrt_lt_1_alt; lra.
Qed.

(** The value of the oracle input: curve b at slenderness 1. *)
Lemma chi_b_1_bounds :
  0.59702 < 1 / (1.136 + sqrt (1.136 ^ 2 - 1)) < 0.59703.
Proof.
  assert (Hs : 0.53897 < sqrt (1.136 ^ 2 - 1) < 0.53898)
    by (apply sqrt_between; lra).
  apply recip_between; lra.
Qed.

Lemma chi_coeff_b_1_eq :
  chi_coeff 1 "b" = Ok (PyFloat (1 / (1.136 + sqrt (1.136 ^ 2 - 1)))).
Proof.
  assert (Hb : In "b" valid_curves) by (unfold valid_curves; simpl; auto).
  rewrite chi_coeff_nonneg_slenderness by (assumption || lra).
  unfold chi_of.
  replace (phi_of (alpha_of "b") 1) with 1.136
    by (unfold phi_of, alpha_of; simpl; lra).
  replace (1.136 ^ 2 - 1 ^ 2) with (1.136 ^ 2 - 1) by lra.
  reflexivity.
Qed.

(** C6, as the specification states it, fails: the value returned for
    curve b at slenderness 1 is more than 0.07 away from 0.6673. *)
Lemma chi_coeff_b_1_not_0_6673 :
  exists v, chi_coeff 1 "b" = Ok (PyFloat v) /\ 0.07 < Rabs (v - 0.6673).
Proof.
  eexists. split; [apply chi_coeff_b_1_eq |].
  pose proof chi_b_1_bounds as [_ Hhi].
  rewrite Rabs_left by lra. lra.
Qed.

(** C6, amended. For curve b (alpha 0.34) at slenderness 1, [phi] is
    [0.5*(1 + 0.34*0.8 + 1) = 1.136] and [chi_coeff] returns
    [1/(1.136 + sqrt(1.136^2 - 1))], which is 0.5970 to four decimals. *)
Theorem chi_coeff_b_1 :
  alpha_of "b" = 0.34 /\
  phi_of (alpha_of "b") 1 = 0.5 * (1 + 0.34 * 0.8 + 1) /\
  phi_of (alpha_of "b") 1 = 1.136 /\
  chi_coeff 1 "b" = Ok (PyFloat (1 / (1.136 + sqrt (1.136 ^ 2 - 1)))) /\
  Rabs (1 / (1.136 + sqrt (1.136 ^ 2 - 1)) - 0.5970) < 0.00005.
Proof.
  split; [reflexivity |].
  split; [unfold phi_of, alpha_of; simpl; lra |].
  split; [unfold phi_of, alpha_of; simpl; lra |].
  split; [apply chi_coeff_b_1_eq |].
  pose proof chi_b_1_bounds as [Hlo Hhi].
  apply Rabs_def1; lra.
Qed.

(** ** The column: claims *)

Lemma EI_eff_pos (i : inputs) :
  positive_inputs i -> 0 <= I_c i -> 0 < EI_eff i.
Proof.
  intros (HL & Hb & Hh & HA & HI & HAs & HIb & Hfy & Hfc & Hfs & HEc & HEs) HIc.
  unfold EI_eff. rewrite Ec_eff_eq.
  assert (0 < E_sm i * I_s i)
    by (apply Rmult_lt_0_compat; unfold E_sm, I_s; lra).
  assert (0 <= 0.6 * (Ec i * 1e3 * (22 / 57)) * I_c i)
    by (apply Rmult_le_pos; lra).
  assert (0 < I_b i * 200e3) by (unfold I_b; lra).
  lra.
Qed.

Lemma Npl_rk_nonneg (i : inputs) :
  positive_inputs i -> 0 <= A_c i -> 0 <= Npl_rk i.
Proof.
  intros (HL & Hb & Hh & HA & HI & HAs & HIb & Hfy & Hfc & Hfs & HEc & HEs) HAc.
  unfold Npl_rk.
  assert (0 <= fy i * A_st' i) by (apply Rmult_le_pos; unfold A_st'; lra).
  assert (0 <= fsd i * As_b' i)
    by (apply Rmult_le_pos; unfold fsd, gamma_B, As_b'; lra).
  assert (0 <= fc i * A_c i) by (apply Rmult_le_pos; lra).
  lra.
Qed.

Lemma h_n_he_300 : 0.0472 < h_n_of he_300 < 0.0473.
Proof.
  unfold h_n_of, A_c, b_c, h_c, A_st', As_b', t_w, fyd, fcd, gamma_M, gamma_C,
    he_300, call.
  cbn [L b h A_st I_st As_b I_by fy fc fs Ec Es].
  lra.
Qed.

(** On the 300x300 mm column the chain A, B, D, C is convex. *)
Lemma he_300_convex :
  clockwise (map snd (points (report he_300 (N_cr_of he_300) (h_n_of he_300)))).
Proof.
  pose proof h_n_he_300 as [Hlo Hhi].
  assert (H2 : 0 <= h_n_of he_300 ^ 2 < 0.0023) by nra.
  unfold report, points. cbn [map snd clockwise]. unfold turn. cbn [fst snd].
  unfold M_b_rd.
  clear Hlo Hhi. revert H2. generalize (h_n_of he_300 ^ 2). intros x Hx.
  unfold M_max_rd, N_b_rd, N_d_rd, Npl_rd, W_plc, W_pla, W_pls, A_c, b_c, h_c,
    A_st', As_b', t_w, fyd, fcd, fsd, gamma_M, gamma_C, gamma_B, he_300, call.
  cbn [L b h A_st I_st As_b I_by fy fc fs Ec Es].
  repeat split; lra.
Qed.

Lemma h_n_he_300_strong_bars : 0.0472 < h_n_of he_300_strong_bars < 0.0473.
Proof.
  unfold h_n_of, A_c, b_c, h_c, A_st', As_b', t_w, fyd, fcd, gamma_M, gamma_C,
    he_300_strong_bars.
  cbn [L b h A_st I_st As_b I_by fy fc fs Ec Es].
  lra.
Qed.

(** Convexity does not follow from positive arguments and a concrete area
    and inertia that are not negative: with a reinforcement strength of
    50000 MPa the chain turns left at B. *)
Lemma he_300_strong_bars_not_convex :
  positive_inputs he_300_strong_bars /\
  0 <= A_c he_300_strong_bars /\ 0 <= I_c he_300_strong_bars /\
  ~ clockwise
      (map snd (points (report he_300_strong_bars (N_cr_of he_300_strong_bars)
                               (h_n_of he_300_strong_bars)))).
Proof.
  split; [unfold positive_inputs, he_300_strong_bars; simpl; repeat split; lra |].
  split; [unfold A_c, b_c, h_c, A_st', As_b', he_300_strong_bars; simpl; lra |].
  split; [unfold I_c, I_s, I_b, b_c, h_c, he_300_strong_bars; simpl; lra |].
  pose proof h_n_he_300_strong_bars as [Hlo Hhi].
  assert (H2 : 0.0022 < h_n_of he_300_strong_bars ^ 2) by nra.
  unfold report, points. cbn [map snd clockwise]. unfold turn. cbn [fst snd].
  unfold M_b_rd.
  clear Hlo Hhi. revert H2. generalize (h_n_of he_300_strong_bars ^ 2).
  intros x Hx.
  unfold M_max_rd, N_b_rd, N_d_rd, Npl_rd, W_plc, W_pla, W_pls, A_c, b_c, h_c,
    A_st', As_b', t_w, fyd, fcd, fsd, gamma_M, gamma_C, gamma_B,
    he_300_strong_bars.
  cbn [L b h A_st I_st As_b I_by fy fc fs Ec Es].
  intros [H _]. lra.
Qed.

(** C1, as the specification states it, fails on the 100x100 mm section:
    every argument is positive, the call returns, and the axial load goes
    up from vertex B to vertex D. *)
Lemma interaction_axial_rises_he_100 :
  positive_inputs he_100 /\
  exists out,
    composite_HE_ec4 he_100 = Ok out /\ ~ non_increasing (y_vals out).
Proof.
  split; [apply he_100_positive |].
  eexists. split; [apply he_100_returns |].
  destruct he_100_values as (HA & _).
  unfold report, y_vals. cbn [map snd fst non_increasing].
  intros (_ & HBD & _). revert HBD.
  unfold N_b_rd, N_d_rd, fcd, gamma_C.
  assert (Hfc : fc he_100 = 30) by reflexivity. rewrite Hfc. nra.
Qed.

(** C1, amended. For positive arguments with a width of at least the
    10 mm web and a concrete area and inertia that are not negative, the
    call returns and plots, in this order, A with zero moment and the
    design plastic resistance [Npl_rd], B, D with the moment [M_max_rd],
    and C with zero axial load and the moment of B (all scaled by 1e3);
    the axial load never goes up along A, B, D, C, and the moment of B
    and C does not exceed the moment of D.  On the 300x300 mm column the
    chain A, B, D, C is moreover convex. *)
Theorem interaction_diagram_vertices (i : inputs) :
  positive_inputs i -> 10 <= b i -> 0 <= A_c i -> 0 <= I_c i ->
  exists out M_b,
    composite_HE_ec4 i = Ok out /\
    points out =
      [ ("A", (0, Npl_rd i * 1e3));
        ("B", (M_b * 1e3, N_b_rd i * 1e3));
        ("D", (M_max_rd i * 1e3, N_d_rd i * 1e3));
        ("C", (M_b * 1e3, 0)) ] /\
    y_vals out = [Npl_rd i * 1e3; N_b_rd i * 1e3; N_d_rd i * 1e3; 0] /\
    non_increasing (y_vals out) /\
    M_b <= M_max_rd i /\
    (i = he_300 -> clockwise (map snd (points out))).
Proof.
  intros Hpos Hb HAc HIc.
  pose proof (EI_eff_pos i Hpos HIc) as HEI.
  pose proof (Npl_rk_nonneg i Hpos HAc) as HN.
  destruct Hpos as (HL & _ & _ & HA & _ & HAs & _ & Hfy & Hfc & Hfs & _ & _).
  assert (Htw : t_w <= b_c i) by (unfold t_w, b_c; lra).
  exists (report i (N_cr_of i) (h_n_of i)), (M_b_rd i (h_n_of i)).
  split; [apply composite_HE_ec4_returns; assumption |].
  split; [reflexivity |]. split; [reflexivity |].
  assert (Hfcd : 0 < fcd i) by (unfold fcd, gamma_C; lra).
  assert (Hfsd : 0 < fsd i) by (unfold fsd, gamma_B; lra).
  assert (Hfyd : 0 < fyd i) by (unfold fyd, gamma_M; lra).
  assert (HNb : 0 <= A_c i * fcd i) by (apply Rmult_le_pos; lra).
  split; [| split].
  - unfold report, y_vals. cbn [map snd fst non_increasing].
    unfold Npl_rd, N_b_rd, N_d_rd.
    assert (0 <= fyd i * A_st' i) by (apply Rmult_le_pos; unfold A_st'; lra).
    assert (0 <= fsd i * As_b' i) by (apply Rmult_le_pos; unfold As_b'; lra).
    repeat split; lra.
  - unfold M_b_rd.
    pose proof (pow2_ge_0 (h_n_of i)) as Hh.
    assert (0 <= 2 * h_n_of i ^ 2 * t_w / 6 * fsd i).
    { apply Rmult_le_pos; [| lra].
      assert (0 <= h_n_of i ^ 2 * t_w)
        by (apply Rmult_le_pos; [assumption | unfold t_w; lra]).
      lra. }
    assert (0 <= 2 * h_n_of i ^ 2 * (b_c i - t_w) / 6 * fcd i).
    { apply Rmult_le_pos; [| lra].
      assert (0 <= h_n_of i ^ 2 * (b_c i - t_w))
        by (apply Rmult_le_pos; [assumption | lra]).
      lra. }
    lra.
  - intros ->. apply he_300_convex.
Qed.

Lemma interaction_diagram_vertices_witness :
  exists out,
    composite_HE_ec4 he_300 = Ok out /\
    non_increasing (y_vals out) /\
    clockwise (map snd (points out)).
Proof.
  destruct he_300_values as (HA & HI & _).
  assert (Hb : 10 <= b he_300) by (unfold he_300, call; simpl; lra).
  destruct (interaction_diagram_vertices he_300 he_300_positive Hb HA HI)
    as (out & M_b & He & _ & _ & Hn & _ & Hc).
  exists out. split; [exact He | split; [exact Hn | apply Hc; reflexivity]].
Defined.

(** C3, as the specification states it, fails on the 100x100 mm section:
    the concrete area and the concrete inertia are both negative and the
    call returns its output, with a negative axial load at vertex B. *)
Lemma negative_concrete_no_error_he_100 :
  A_c he_100 <= 0 /\ I_c he_100 <= 0 /\
  exists out,
    composite_HE_ec4 he_100 = Ok out /\
    exists M_b N_b, In ("B", (M_b, N_b)) (points out) /\ N_b < 0.
Proof.
  destruct he_100_values as (HA & HI & _).
  split; [lra | split; [lra |]].
  eexists. split; [apply he_100_returns |].
  unfold report, points. do 2 eexists. split; [right; left; reflexivity |].
  unfold N_b_rd, fcd, gamma_C.
  assert (Hfc : fc he_100 = 30) by reflexivity. rewrite Hfc. nra.
Qed.

(** C3, amended. [composite_HE_ec4] never looks at the sign of the
    concrete area or inertia.  The only errors it raises are the
    [ZeroDivisionError] of a zero divisor (lines 79, 89, 94) and the
    [ValueError] of [math.sqrt] on a negative ratio (line 89).  With a
    positive length, effective stiffness and strengths, a characteristic
    resistance that is not negative and a width of at least the web, it
    returns, whatever the signs of [A_c] and [I_c], and vertex B carries
    the axial load [A_c * fcd]. *)
Theorem composite_HE_ec4_no_sign_check (i : inputs) :
  (forall e, composite_HE_ec4 i = Raise e ->
     e = ZeroDivisionError "float division by zero" \/
     e = ValueError "math domain error") /\
  (0 < L i -> 0 < EI_eff i -> 0 <= Npl_rk i ->
   0 < fy i -> 0 < fc i -> t_w <= b_c i ->
   exists out M_b,
     composite_HE_ec4 i = Ok out /\
     In ("B", (M_b, A_c i * fcd i * 1e3)) (points out)).
Proof.
  split.
  - intros e. unfold composite_HE_ec4.
    unfold float_div at 1. destruct (Req_dec_T (L i ^ 2) 0); cbn [bind];
      [intros [= <-]; auto |].
    unfold float_div at 1. destruct (Req_dec_T _ 0); cbn [bind];
      [intros [= <-]; auto |].
    unfold math_sqrt. destruct (Rlt_dec _ 0) as [| Hq]; cbn [bind];
      [intros [= <-]; auto |].
    rewrite chi_coeff_nonneg_slenderness
      by (simpl; auto using sqrt_pos). cbn [bind].
    unfold float_div at 1. destruct (Req_dec_T _ 0); cbn [bind];
      [intros [= <-]; auto |].
    unfold float_div at 1. destruct (Req_dec_T _ 0); cbn [bind];
      [intros [= <-]; auto |].
    discriminate.
  - intros HL HEI HN Hfy Hfc Hb.
    exists (report i (N_cr_of i) (h_n_of i)), (M_b_rd i (h_n_of i) * 1e3).
    split; [apply composite_HE_ec4_returns; assumption |].
    unfold report, points, N_b_rd. right; left. reflexivity.
Qed.

Lemma composite_HE_ec4_no_sign_check_witness :
  A_c he_100 < 0 /\
  exists out M_b,
    composite_HE_ec4 he_100 = Ok out /\
    In ("B", (M_b, A_c he_100 * fcd he_100 * 1e3)) (points out).
Proof.
  destruct he_100_values as (HA & _ & HEI & HN).
  split; [exact HA |].
  apply (proj2 (composite_HE_ec4_no_sign_check he_100)).
  - unfold he_100, call; simpl; lra.
  - exact HEI.
  - exact HN.
  - unfold he_100, call; simpl; lra.
  - unfold he_100, call; simpl; lra.
  - unfold t_w, b_c, he_100, call; simpl; lra.
Defined.

(** C9. Whatever the arguments, the call and the same computation without
    line 90 produce the same prints and the same plot data, and raise the
    same errors: the reduction factor is computed and never used. *)
Theorem composite_HE_ec4_ignores_chi (i : inputs) :
  composite_HE_ec4 i = composite_HE_ec4_without_chi i.
Proof.
  unfold composite_HE_ec4, composite_HE_ec4_without_chi.
  destruct (float_div (EI_eff i * PI ^ 2) (L i ^ 2)) as [N_cr | e];
    cbn [bind]; [| reflexivity].
  destruct (float_div (Npl_rk i) N_cr) as [q | e]; cbn [bind]; [| reflexivity].
  unfold math_sqrt. destruct (Rlt_dec q 0); cbn [bind]; [reflexivity |].
  rewrite chi_coeff_nonneg_slenderness by (simpl; auto using sqrt_pos).
  reflexivity.
Qed.

(** C2. The design strengths are the nominal ones over the fixed factors
    1.0, 1.5 (with the coefficient 0.85) and 1.15, and [Npl_rd] weights the
    three zones by them.  [Npl_rk] weights steel and concrete by their
    nominal strengths and the reinforcement by its design strength: on
    the 300x300 mm column it is below the sum over the nominal strengths. *)
Theorem Npl_rk_uses_design_reinforcement_strength :
  (forall i,
     fyd i = fy i / 1.0 /\ fcd i = 0.85 * fc i / 1.5 /\ fsd i = fs i / 1.15 /\
     Npl_rd i = fyd i * A_st' i + fsd i * As_b' i + fcd i * A_c i /\
     Npl_rk i = fy i * A_st' i + fs i / 1.15 * As_b' i + fc i * A_c i) /\
  Npl_rk he_300 = Npl_rk_nominal he_300 - (500 - 500 / 1.15) * 0.001257 /\
  Npl_rk he_300 < Npl_rk_nominal he_300.
Proof.
  split; [intros i; repeat split |].
  assert (E : Npl_rk he_300
              = Npl_rk_nominal he_300 - (500 - 500 / 1.15) * 0.001257).
  { unfold Npl_rk, Npl_rk_nominal, fsd, gamma_B, As_b', he_300, call.
    cbn [fs As_b fy fc]. lra. }
  split; [exact E | rewrite E; lra].
Qed.

(** * Further properties *)

(** ** The buckling curve *)

Lemma chi_of_at_0_2 (a : R) : chi_of a 0.2 = 1.
Proof.
  unfold chi_of.
  replace (phi_of a 0.2) with 0.52 by (unfold phi_of; lra).
  replace (0.52 ^ 2 - 0.2 ^ 2) with (0.48 ^ 2) by lra.
  rewrite sqrt_pow2 by lra. lra.
Qed.

(** X1. At slenderness 0.2 every curve of the table gives exactly 1. *)
Theorem chi_coeff_at_0_2 (c : string) :
  In c valid_curves -> chi_coeff 0.2 c = Ok (PyFloat 1).
Proof.
  intros Hc. rewrite chi_coeff_nonneg_slenderness by (assumption || lra).
  rewrite chi_of_at_0_2. reflexivity.
Qed.

Lemma chi_coeff_at_0_2_witness : chi_coeff 0.2 "d" = Ok (PyFloat 1).
Proof.
  apply chi_coeff_at_0_2. unfold valid_curves. simpl. auto 6.
Defined.

Lemma chi_of_alpha_antitone (a1 a2 lam : R) :
  0 < a1 -> a1 <= a2 -> a2 <= 1 -> 0.2 <= lam ->
  chi_of a2 lam <= chi_of a1 lam.
Proof.
  intros H1 H12 H2 Hl.
  assert (Ha1 : 0 < a1 <= 1) by lra.
  assert (Ha2 : 0 < a2 <= 1) by lra.
  assert (Hl0 : 0 <= lam) by lra.
  pose proof (phi_pos a1 Ha1 lam Hl0) as Hp1.
  assert (Hphi : phi_of a1 lam <= phi_of a2 lam).
  { unfold phi_of.
    assert (a1 * (lam - 0.2) <= a2 * (lam - 0.2))
      by (apply Rmult_le_compat_r; lra).
    lra. }
  unfold chi_of, Rdiv. rewrite !Rmult_1_l.
  apply Rinv_le_contravar; [apply denom_pos; assumption |].
  apply Rplus_le_compat; [assumption |].
  apply sqrt_le_1_alt.
  assert (phi_of a1 lam ^ 2 <= phi_of a2 lam ^ 2)
    by (apply pow_incr; lra).
  lra.
Qed.

(** X2. From slenderness 0.2 on the four curves are ordered: a gives
    the largest reduction factor, then b, then c, and d the smallest. *)
Theorem chi_coeff_curve_order (lam : R) :
  0.2 <= lam ->
  exists va vb vc vd,
    chi_coeff lam "a" = Ok (PyFloat va) /\
    chi_coeff lam "b" = Ok (PyFloat vb) /\
    chi_coeff lam "c" = Ok (PyFloat vc) /\
    chi_coeff lam "d" = Ok (PyFloat vd) /\
    vd <= vc /\ vc <= vb /\ vb <= va.
Proof.
  intros Hl.
  exists (chi_of 0.21 lam), (chi_of 0.34 lam), (chi_of 0.49 lam), (chi_of 0.76 lam).
  assert (Hv : forall c, In c valid_curves ->
                 chi_coeff lam c = Ok (PyFloat (chi_of (alpha_of c) lam)))
    by (intros c Hc; apply chi_coeff_nonneg_slenderness; [assumption | lra]).
  repeat split;
    try (apply Hv; unfold valid_curves; simpl; auto 6);
    apply chi_of_alpha_antitone; lra.
Qed.

Lemma chi_coeff_curve_order_witness :
  exists va vd,
    chi_coeff 1 "a" = Ok (PyFloat va) /\
    chi_coeff 1 "d" = Ok (PyFloat vd) /\ vd <= va.
Proof.
  assert (Hl : 0.2 <= 1) by lra.
  destruct (chi_coeff_curve_order 1 Hl)
    as (va & vb & vc & vd & Ha & _ & _ & Hd & H1 & H2 & H3).
  exists va, vd. split; [exact Ha | split; [exact Hd | lra]].
Defined.

(** X3. From slenderness 0.2 on the reduction factor stays below the
    Euler hyperbola: [chi * lambda^2 <= 1]. *)
Theorem chi_coeff_below_euler (lam : R) (c : string) :
  In c valid_curves -> 0.2 <= lam ->
  exists v, chi_coeff lam c = Ok (PyFloat v) /\ v * lam ^ 2 <= 1.
Proof.
  intros Hc Hl. destruct (alpha_of_valid c Hc) as [Ha _].
  exists (chi_of (alpha_of c) lam).
  split; [apply chi_coeff_nonneg_slenderness; [assumption | lra] |].
  set (a := alpha_of c) in *.
  assert (Hl0 : 0 <= lam) by lra.
  pose proof (denom_pos a Ha lam Hl0) as HD.
  assert (Hle : lam ^ 2 <= phi_of a lam + sqrt (phi_of a lam ^ 2 - lam ^ 2)).
  { apply below_denom; [assumption | assumption |].
    replace ((lam ^ 2) ^ 2 - 2 * phi_of a lam * lam ^ 2 + lam ^ 2)
      with (- (lam ^ 2 * (a * (lam - 0.2)))) by (unfold phi_of; nra).
    assert (0 <= lam ^ 2 * (a * (lam - 0.2))).
    { apply Rmult_le_pos; [apply pow2_ge_0 | apply Rmult_le_pos; lra]. }
    lra. }
  unfold chi_of.
  apply (Rmult_le_reg_r (phi_of a lam + sqrt (phi_of a lam ^ 2 - lam ^ 2)));
    [assumption |].
  unfold Rdiv. rewrite Rmult_1_l, Rmult_1_l.
  rewrite (Rmult_comm (/ _)), Rmult_assoc, Rinv_l by lra. lra.
Qed.

Lemma chi_coeff_below_euler_witness :
  exists v, chi_coeff 2 "c" = Ok (PyFloat v) /\ v * 2 ^ 2 <= 1.
Proof.
  apply chi_coeff_below_euler.
  - unfold valid_curves. simpl. auto 6.
  - lra.
Defined.

(** X4. For a slenderness that is not negative the value returned solves
    the Ayrton-Perry equation of the curve:
    [(1 - chi) * (1 - lambda^2 * chi) = alpha * (lambda - 0.2) * chi]. *)
Theorem chi_coeff_ayrton_perry (lam : R) (c : string) :
  In c valid_curves -> 0 <= lam ->
  exists v,
    chi_coeff lam c = Ok (PyFloat v) /\
    (1 - v) * (1 - lam ^ 2 * v) = alpha_of c * (lam - 0.2) * v.
Proof.
  intros Hc Hl. destruct (alpha_of_valid c Hc) as [Ha _].
  exists (chi_of (alpha_of c) lam).
  split; [apply chi_coeff_nonneg_slenderness; assumption |].
  set (a := alpha_of c) in *.
  pose proof (denom_pos a Ha lam Hl) as HD.
  pose proof (denom_quadratic a Ha lam Hl) as Hq. cbv zeta in Hq.
  unfold chi_of.
  set (D := phi_of a lam + sqrt (phi_of a lam ^ 2 - lam ^ 2)) in *.
  assert (Hv : 1 / D * D = 1)
    by (unfold Rdiv; rewrite Rmult_assoc, Rinv_l; lra).
  set (v := 1 / D) in *.
  assert (H0 : (v * D) ^ 2 - 2 * phi_of a lam * (v * D) * v + lam ^ 2 * v ^ 2 = 0).
  { replace ((v * D) ^ 2 - 2 * phi_of a lam * (v * D) * v + lam ^ 2 * v ^ 2)
      with (v ^ 2 * (D ^ 2 - 2 * phi_of a lam * D + lam ^ 2)) by ring.
    rewrite Hq. ring. }
  rewrite Hv in H0. unfold phi_of in H0. nra.
Qed.

Lemma chi_coeff_ayrton_perry_witness :
  exists v,
    chi_coeff 1 "b" = Ok (PyFloat v) /\
    (1 - v) * (1 - 1 ^ 2 * v) = alpha_of "b" * (1 - 0.2) * v.
Proof.
  apply chi_coeff_ayrton_perry.
  - unfold valid_curves. simpl. auto 6.
  - lra.
Defined.

(** ** The column *)

(** X5. A column length of 0 makes the call raise [ZeroDivisionError] on
    line 79, whatever the other arguments. *)
Theorem composite_HE_ec4_zero_length (i : inputs) :
  L i = 0 ->
  composite_HE_ec4 i = Raise (ZeroDivisionError "float division by zero").
Proof.
  intros HL. unfold composite_HE_ec4, float_div at 1.
  destruct (Req_dec_T (L i ^ 2) 0) as [_ | Hn]; [reflexivity |].
  exfalso. apply Hn. rewrite HL. ring.
Qed.

Lemma composite_HE_ec4_zero_length_witness :
  composite_HE_ec4 (call 0 300 300 149.8 19340 12.57 500 355 30)
  = Raise (ZeroDivisionError "float division by zero").
Proof.
  apply composite_HE_ec4_zero_length. reflexivity.
Defined.

Lemma N_cr_of_nonzero (i : inputs) :
  L i <> 0 -> EI_eff i <> 0 -> N_cr_of i <> 0.
Proof.
  intros HL HEI. unfold N_cr_of, Rdiv.
  assert (HL2 : L i ^ 2 <> 0) by (apply pow_nonzero; assumption).
  assert (Hpi : PI ^ 2 <> 0) by (apply pow_nonzero, PI_neq0).
  apply Rmult_integral_contrapositive_currified;
    [apply Rmult_integral_contrapositive_currified; assumption |].
  apply Rinv_neq_0_compat; assumption.
Qed.

(** X6. With a length and an effective stiffness other than 0, a
    negative ratio of characteristic resistance to critical load makes
    the call raise the [ValueError] of [math.sqrt] on line 89. *)
Theorem composite_HE_ec4_negative_ratio (i : inputs) :
  L i <> 0 -> EI_eff i <> 0 -> Npl_rk i / N_cr_of i < 0 ->
  composite_HE_ec4 i = Raise (ValueError "math domain error").
Proof.
  intros HL HEI Hq.
  pose proof (N_cr_of_nonzero i HL HEI) as Hcr.
  unfold composite_HE_ec4.
  rewrite float_div_ok by (apply pow_nonzero; assumption). cbn [bind].
  fold (N_cr_of i).
  rewrite float_div_ok by assumption. cbn [bind].
  unfold math_sqrt. destruct (Rlt_dec (Npl_rk i / N_cr_of i) 0); [reflexivity | lra].
Qed.

Lemma composite_HE_ec4_negative_ratio_witness :
  composite_HE_ec4 he_100_soft = Raise (ValueError "math domain error").
Proof.
  assert (HEI : EI_eff he_100_soft < 0).
  { unfold EI_eff. rewrite Ec_eff_eq.
    unfold I_c, I_s, I_b, b_c, h_c, E_sm, he_100_soft.
    cbn [b h I_st I_by Ec Es]. lra. }
  assert (HN : 0 < Npl_rk he_100_soft).
  { unfold Npl_rk, A_c, A_st', As_b', b_c, h_c, fsd, gamma_B, he_100_soft.
    cbn [b h A_st As_b fy fc fs]. lra. }
  assert (HL : L he_100_soft <> 0) by (unfold he_100_soft; simpl; lra).
  apply composite_HE_ec4_negative_ratio; [exact HL | lra |].
  assert (Hcr : N_cr_of he_100_soft < 0).
  { unfold N_cr_of, Rdiv.
    assert (0 < PI ^ 2 * / L he_100_soft ^ 2).
    { apply Rmult_lt_0_compat; [apply pow_lt, PI_RGT_0 |].
      apply Rinv_0_lt_compat, pow_lt. unfold he_100_soft; simpl; lra. }
    rewrite Rmult_assoc. nra. }
  unfold Rdiv. pose proof (Rinv_lt_0_compat _ Hcr). nra.
Defined.

Lemma chi_coeff_c_sqrt (q : R) :
  chi_coeff (sqrt q) "c" = Ok (PyFloat (chi_of (alpha_of "c") (sqrt q))).
Proof.
  apply chi_coeff_nonneg_slenderness; [simpl; auto | apply sqrt_pos].
Qed.

Lemma fcd_zero (i : inputs) : 0.85 * fcd i = 0 <-> fc i = 0.
Proof. unfold fcd, gamma_C; split; intros; lra. Qed.

(** What a returned output tells about the arguments. *)
Lemma composite_HE_ec4_ok_inv (i : inputs) (out : output) :
  composite_HE_ec4 i = Ok out ->
  out = report i (N_cr_of i) (h_n_of i) /\
  L i <> 0 /\ EI_eff i <> 0 /\ 0 <= Npl_rk i / N_cr_of i /\
  fc i <> 0 /\
  b_c i - t_w + 2 * t_w * (fyd i / (0.85 * fcd i)) <> 0.
Proof.
  unfold composite_HE_ec4.
  unfold float_div at 1.
  destruct (Req_dec_T (L i ^ 2) 0) as [| HL2]; cbn [bind]; [discriminate |].
  fold (N_cr_of i).
  unfold float_div at 1.
  destruct (Req_dec_T (N_cr_of i) 0) as [| Hcr]; cbn [bind]; [discriminate |].
  unfold math_sqrt.
  destruct (Rlt_dec (Npl_rk i / N_cr_of i) 0) as [| Hq]; cbn [bind];
    [discriminate |].
  rewrite chi_coeff_c_sqrt. cbn [bind].
  unfold float_div at 1.
  destruct (Req_dec_T (0.85 * fcd i) 0) as [| Hf]; cbn [bind]; [discriminate |].
  unfold float_div at 1.
  destruct (Req_dec_T _ 0) as [| Hd]; cbn [bind]; [discriminate |].
  intros [= <-]. split; [reflexivity |].
  assert (HL : L i <> 0) by (intros E; apply HL2; rewrite E; ring).
  assert (HEI : EI_eff i <> 0).
  { intros E. apply Hcr. unfold N_cr_of. rewrite E. unfold Rdiv. ring. }
  split; [exact HL |]. split; [exact HEI |]. split; [lra |].
  split; [intros E; apply Hf, fcd_zero, E |].
  intros E. apply Hd. rewrite E. ring.
Qed.

(** X7. The call returns exactly when no divisor is 0 and the ratio
    under the square root is not negative; what it returns is then the
    report on the critical load of line 79 and the depth of line 94. *)
Theorem composite_HE_ec4_returns_iff (i : inputs) :
  ((exists out, composite_HE_ec4 i = Ok out) <->
   (L i <> 0 /\ EI_eff i <> 0 /\ 0 <= Npl_rk i / N_cr_of i /\ fc i <> 0 /\
    b_c i - t_w + 2 * t_w * (fyd i / (0.85 * fcd i)) <> 0)) /\
  (forall out, composite_HE_ec4 i = Ok out ->
               out = report i (N_cr_of i) (h_n_of i)).
Proof.
  split; [split |].
  - intros [out Hout]. apply (composite_HE_ec4_ok_inv i out Hout).
  - intros (HL & HEI & Hq & Hf & Hd).
    exists (report i (N_cr_of i) (h_n_of i)).
    pose proof (N_cr_of_nonzero i HL HEI) as Hcr.
    unfold composite_HE_ec4.
    rewrite float_div_ok by (apply pow_nonzero; assumption). cbn [bind].
    fold (N_cr_of i).
    rewrite float_div_ok by assumption. cbn [bind].
    rewrite math_sqrt_ok by assumption. cbn [bind].
    rewrite chi_coeff_c_sqrt. cbn [bind].
    rewrite float_div_ok by (rewrite fcd_zero; assumption). cbn [bind].
    rewrite float_div_ok by lra. cbn [bind].
    reflexivity.
  - intros out Hout. apply (composite_HE_ec4_ok_inv i out Hout).
Qed.

Lemma composite_HE_ec4_returns_iff_witness :
  L he_300 <> 0 /\ EI_eff he_300 <> 0 /\ fc he_300 <> 0.
Proof.
  assert (H : exists out, composite_HE_ec4 he_300 = Ok out).
  { destruct he_300_values as (_ & _ & HEI & HN).
    eexists. apply composite_HE_ec4_returns; try assumption;
      unfold t_w, b_c, he_300, call; simpl; lra. }
  destruct (proj1 (proj1 (composite_HE_ec4_returns_iff he_300)) H)
    as (HL & HEI & _ & Hfc & _).
  repeat split; assumption.
Defined.

(** X8. The plotted vertices and the printed resistance and moments do
    not depend on the column length, on the two inertias or on the two
    moduli: two calls that agree on the section and the strengths and
    both return show the same diagram, and differ at most in the
    critical load printed first. *)
Theorem interaction_diagram_ignores_length (i j : inputs) (oi oj : output) :
  b i = b j -> h i = h j -> A_st i = A_st j -> As_b i = As_b j ->
  fy i = fy j -> fc i = fc j -> fs i = fs j ->
  composite_HE_ec4 i = Ok oi -> composite_HE_ec4 j = Ok oj ->
  points oi = points oj /\
  x_vals oi = x_vals oj /\ y_vals oi = y_vals oj /\
  tl (printed oi) = tl (printed oj).
Proof.
  intros Hb Hh HA HAs Hfy Hfc Hfs Hi Hj.
  destruct (composite_HE_ec4_ok_inv i oi Hi) as [-> _].
  destruct (composite_HE_ec4_ok_inv j oj Hj) as [-> _].
  assert (EAc : A_c i = A_c j)
    by (unfold A_c, b_c, h_c, A_st', As_b'; rewrite Hb, Hh, HA, HAs; reflexivity).
  assert (Ebc : b_c i = b_c j) by (unfold b_c; rewrite Hb; reflexivity).
  assert (Efyd : fyd i = fyd j) by (unfold fyd; rewrite Hfy; reflexivity).
  assert (Efcd : fcd i = fcd j) by (unfold fcd; rewrite Hfc; reflexivity).
  assert (Efsd : fsd i = fsd j) by (unfold fsd; rewrite Hfs; reflexivity).
  assert (Ehn : h_n_of i = h_n_of j)
    by (unfold h_n_of; rewrite EAc, Ebc, Efyd, Efcd; reflexivity).
  assert (EMmax : M_max_rd i = M_max_rd j)
    by (unfold M_max_rd, W_plc, b_c, h_c; rewrite Hb, Hh, Efyd, Efcd, Efsd;
        reflexivity).
  assert (EMb : M_b_rd i (h_n_of i) = M_b_rd j (h_n_of j))
    by (unfold M_b_rd; rewrite Ehn, EMmax, Ebc, Efcd, Efsd; reflexivity).
  assert (ENpl : Npl_rd i = Npl_rd j)
    by (unfold Npl_rd, A_st', As_b'; rewrite EAc, HA, HAs, Efyd, Efcd, Efsd;
        reflexivity).
  assert (ENb : N_b_rd i = N_b_rd j)
    by (unfold N_b_rd; rewrite EAc, Efcd; reflexivity).
  assert (ENd : N_d_rd i = N_d_rd j)
    by (unfold N_d_rd; rewrite EAc, Efcd; reflexivity).
  unfold report. cbn [points x_vals y_vals printed tl map fst snd].
  rewrite EMb, EMmax, ENpl, ENb, ENd. repeat split; reflexivity.
Qed.

Lemma interaction_diagram_ignores_length_witness :
  exists oi oj,
    composite_HE_ec4 he_300 = Ok oi /\
    composite_HE_ec4 he_300_long = Ok oj /\
    points oi = points oj.
Proof.
  assert (Hi : composite_HE_ec4 he_300
               = Ok (report he_300 (N_cr_of he_300) (h_n_of he_300))).
  { destruct he_300_values as (_ & _ & HEI & HN).
    apply composite_HE_ec4_returns; try assumption;
      unfold t_w, b_c, he_300, call; simpl; lra. }
  assert (Hj : composite_HE_ec4 he_300_long
               = Ok (report he_300_long (N_cr_of he_300_long)
                                        (h_n_of he_300_long))).
  { apply composite_HE_ec4_returns.
    - unfold he_300_long; simpl; lra.
    - unfold EI_eff. rewrite Ec_eff_eq.
      unfold I_c, I_s, I_b, b_c, h_c, E_sm, he_300_long.
      cbn [b h I_st I_by Ec Es]. lra.
    - unfold Npl_rk, A_c, A_st', As_b', b_c, h_c, fsd, gamma_B, he_300_long.
      cbn [b h A_st As_b fy fc fs]. lra.
    - unfold he_300_long; simpl; lra.
    - unfold he_300_long; simpl; lra.
    - unfold t_w, b_c, he_300_long; simpl; lra. }
  do 2 eexists. split; [exact Hi | split; [exact Hj |]].
  apply (interaction_diagram_ignores_length he_300 he_300_long _ _);
    try reflexivity; assumption.
Defined.

(** ** propiedades_ipe *)

(** X9. The two files compute the same area and the same inertia. *)
Theorem propiedades_ipe_same_in_both_files (hw tw bf tf : R) :
  I_profil_inertia_yy.propiedades_ipe hw tw bf tf
  = Propiedades_ipe.propiedades_ipe hw tw bf tf.
Proof.
  unfold I_profil_inertia_yy.propiedades_ipe, Propiedades_ipe.propiedades_ipe.
  cbv zeta. f_equal; [| f_equal]; f_equal; ring.
Qed.

(** X10. The printed values are those of the enclosing rectangle
    [bf x hw] minus the two voids beside the web: the area is
    [bf*hw - (bf-tw)*(hw-2*tf)] and the inertia is
    [(bf*hw^3 - (bf-tw)*(hw-2*tf)^3)/12]. *)
Theorem propiedades_ipe_rectangle_minus_voids (hw tw bf tf : R) :
  Propiedades_ipe.propiedades_ipe hw tw bf tf
  = [ ("A", bf * hw - (bf - tw) * (hw - 2 * tf));
      ("Iy", (bf * hw ^ 3 - (bf - tw) * (hw - 2 * tf) ^ 3) / 12) ].
Proof.
  unfold Propiedades_ipe.propiedades_ipe. cbv zeta.
  f_equal; [| f_equal]; f_equal.
  - field.
  - field.
Qed.

(** X11. Scaling the four dimensions by [k] (a change of unit) scales the
    area by [k^2] and the inertia by [k^4]. *)
Theorem propiedades_ipe_scaling (k hw tw bf tf : R) :
  exists A Iy,
    Propiedades_ipe.propiedades_ipe hw tw bf tf = [("A", A); ("Iy", Iy)] /\
    Propiedades_ipe.propiedades_ipe (k * hw) (k * tw) (k * bf) (k * tf)
    = [("A", k ^ 2 * A); ("Iy", k ^ 4 * Iy)].
Proof.
  unfold Propiedades_ipe.propiedades_ipe. cbv zeta.
  do 2 eexists. split; [reflexivity |].
  f_equal; [| f_equal]; f_equal.
  - field.
  - field.
Qed.

(** X12. For positive thicknesses and width and a height above the two
    flanges, the area and the inertia are positive. *)
Theorem propiedades_ipe_positive (hw tw bf tf : R) :
  0 < tw -> 0 < bf -> 0 < tf -> 2 * tf < hw ->
  exists A Iy,
    Propiedades_ipe.propiedades_ipe hw tw bf tf = [("A", A); ("Iy", Iy)] /\
    0 < A /\ 0 < Iy.
Proof.
  intros Htw Hbf Htf Hhw.
  unfold Propiedades_ipe.propiedades_ipe. cbv zeta.
  do 2 eexists. split; [reflexivity |].
  assert (Hw : 0 < hw - 2 * tf) by lra.
  assert (H1 : 0 < bf * tf) by (apply Rmult_lt_0_compat; assumption).
  assert (H2 : 0 < (hw - 2 * tf) * tw) by (apply Rmult_lt_0_compat; assumption).
  assert (H3 : 0 < tw * (hw - 2 * tf) ^ 3)
    by (apply Rmult_lt_0_compat; [assumption | apply pow_lt; assumption]).
  assert (H4 : 0 < bf * tf ^ 3)
    by (apply Rmult_lt_0_compat; [assumption | apply pow_lt; assumption]).
  assert (H5 : 0 <= bf * tf * ((hw - 2 * tf + tf) / 2) ^ 2)
    by (apply Rmult_le_pos; [lra | apply pow2_ge_0]).
  split; lra.
Qed.

Lemma propiedades_ipe_positive_witness :
  exists A Iy,
    Propiedades_ipe.propiedades_ipe 200 5.6 100 8.1 = [("A", A); ("Iy", Iy)] /\
    0 < A /\ 0 < Iy.
Proof.
  apply propiedades_ipe_positive; lra.
Defined.

(** ** beams_analysis_test: the lookup and the summary *)

Lemma first_at_or_after_none (x_offset : R) (data : list (R * R)) :
  first_at_or_after x_offset data = None <->
  Forall (fun p => fst p < x_offset) data.
Proof.
  induction data as [| [x v] data IH]; simpl.
  - split; [constructor | reflexivity].
  - destruct (Rge_dec x x_offset) as [Hge | Hlt].
    + split; [discriminate |]. intros H. inversion H; subst. simpl in *. lra.
    + rewrite IH. split.
      * intros H. constructor; [simpl; lra | exact H].
      * intros H. inversion H; assumption.
Qed.

Lemma first_at_or_after_some (x_offset : R) (data : list (R * R)) (v : R) :
  first_at_or_after x_offset data = Some v <->
  exists pre x post,
    data = (pre ++ (x, v) :: post)%list /\ x_offset <= x /\
    Forall (fun p => fst p < x_offset) pre.
Proof.
  induction data as [| [x0 v0] data IH]; simpl.
  - split; [discriminate |].
    intros (pre & x & post & E & _). destruct pre; discriminate E.
  - destruct (Rge_dec x0 x_offset) as [Hge | Hlt].
    + split.
      * intros [= <-]. exists [], x0, data. simpl.
        split; [reflexivity | split; [lra | constructor]].
      * intros (pre & x & post & E & Hx & Hpre).
        destruct pre as [| p pre]; simpl in E.
        -- injection E as _ -> _. reflexivity.
        -- injection E as <- _. inversion Hpre; subst. simpl in *. lra.
    + rewrite IH. split.
      * intros (pre & x & post & -> & Hx & Hpre).
        exists ((x0, v0) :: pre), x, post. simpl.
        split; [reflexivity | split; [exact Hx |]].
        constructor; [simpl; lra | exact Hpre].
      * intros (pre & x & post & E & Hx & Hpre).
        destruct pre as [| p pre]; simpl in E.
        -- injection E as -> _ _. lra.
        -- injection E as _ ->. exists pre, x, post.
           split; [reflexivity | split; [exact Hx |]].
           inversion Hpre; assumption.
Qed.




(** X13. [get_shear_moment_at_x] answers [None] for the shear (the
    moment) exactly when every sample of the shear (moment) data lies
    before [x_offset]; with empty data both answers are [None]. *)
Theorem get_shear_moment_at_x_none
  (x_offset : R) (shear_data moment_data : list (R * R)) :
  (fst (get_shear_moment_at_x x_offset shear_data moment_data) = None <->
   Forall (fun p => fst p < x_offset) shear_data) /\
  (snd (get_shear_moment_at_x x_offset shear_data moment_data) = None <->
   Forall (fun p => fst p < x_offset) moment_data) /\
  get_shear_moment_at_x x_offset [] [] = (None, None).
Proof.
  unfold get_shear_moment_at_x. cbn [fst snd].
  split; [apply first_at_or_after_none |].
  split; [apply first_at_or_after_none | reflexivity].
Qed.

(** X14. A value answered by [get_shear_moment_at_x] is the value of the
    first sample, in list order, whose abscissa is at least [x_offset]:
    a sampled value, never an interpolated one. *)
Theorem get_shear_moment_at_x_first
  (x_offset : R) (shear_data moment_data : list (R * R)) (v m : R) :
  (fst (get_shear_moment_at_x x_offset shear_data moment_data) = Some v <->
   exists pre x post,
     shear_data = (pre ++ (x, v) :: post)%list /\ x_offset <= x /\
     Forall (fun p => fst p < x_offset) pre) /\
  (snd (get_shear_moment_at_x x_offset shear_data moment_data) = Some m <->
   exists pre x post,
     moment_data = (pre ++ (x, m) :: post)%list /\ x_offset <= x /\
     Forall (fun p => fst p < x_offset) pre).
Proof.
  unfold get_shear_moment_at_x. cbn [fst snd].
  split; apply first_at_or_after_some.
Qed.

Lemma get_shear_moment_at_x_first_witness :
  get_shear_moment_at_x 1.5 [(0, 10); (1, 4); (2, -2); (3, -8)]
                            [(0, 0); (1, 7); (2, 8); (3, 3)]
  = (Some (-2), Some 8).
Proof.
  pose proof (get_shear_moment_at_x_first 1.5
                [(0, 10); (1, 4); (2, -2); (3, -8)]
                [(0, 0); (1, 7); (2, 8); (3, 3)] (-2) 8) as [Hs Hm].
  assert (H1 : fst (get_shear_moment_at_x 1.5
                      [(0, 10); (1, 4); (2, -2); (3, -8)]
                      [(0, 0); (1, 7); (2, 8); (3, 3)]) = Some (-2)).
  { apply Hs. exists [(0, 10); (1, 4)], 2, [(3, -8)].
    split; [reflexivity | split; [lra |]].
    repeat constructor; simpl; lra. }
  assert (H2 : snd (get_shear_moment_at_x 1.5
                      [(0, 10); (1, 4); (2, -2); (3, -8)]
                      [(0, 0); (1, 7); (2, 8); (3, 3)]) = Some 8).
  { apply Hm. exists [(0, 0); (1, 7)], 2, [(3, 3)].
    split; [reflexivity | split; [lra |]].
    repeat constructor; simpl; lra. }
  rewrite (surjective_pairing (get_shear_moment_at_x _ _ _)).
  rewrite H1, H2. reflexivity.
Defined.



Lemma get_shear_moment_at_x_none_witness :
  fst (get_shear_moment_at_x 5 [(0, 10); (1, 4); (2, -2)] [(0, 0); (6, 1)]) = None.
Proof.
  apply (proj1 (get_shear_moment_at_x_none 5 [(0, 10); (1, 4); (2, -2)]
                                             [(0, 0); (6, 1)])).
  repeat constructor; simpl; lra.
Defined.

Lemma fold_min_spec (l : list R) (x : R) :
  let m := fold_left (fun cur item => if Rlt_dec item cur then item else cur) l x in
  In m (x :: l) /\ Forall (fun v => m <= v) (x :: l).
Proof.
  revert x. induction l as [| y l IH]; intros x; cbn [fold_left].
  - split; [left; reflexivity | constructor; [lra | constructor]].
  - destruct (Rlt_dec y x) as [Hlt | Hge].
    + destruct (IH y) as [Hin Hall]. split.
      * right. exact Hin.
      * inversion Hall; subst. constructor; [lra | assumption].
    + destruct (IH x) as [Hin Hall]. split.
      * destruct Hin as [<- | Hin]; [left; reflexivity | right; right; exact Hin].
      * inversion Hall; subst. constructor; [assumption |].
        constructor; [lra | assumption].
Qed.

Lemma fold_max_spec (l : list R) (x : R) :
  let m := fold_left (fun cur item => if Rgt_dec item cur then item else cur) l x in
  In m (x :: l) /\ Forall (fun v => v <= m) (x :: l).
Proof.
  revert x. induction l as [| y l IH]; intros x; cbn [fold_left].
  - split; [left; reflexivity | constructor; [lra | constructor]].
  - destruct (Rgt_dec y x) as [Hgt | Hle].
    + destruct (IH y) as [Hin Hall]. split.
      * right. exact Hin.
      * inversion Hall; subst. constructor; [lra | assumption].
    + destruct (IH x) as [Hin Hall]. split.
      * destruct Hin as [<- | Hin]; [left; reflexivity | right; right; exact Hin].
      * inversion Hall; subst. constructor; [assumption |].
        constructor; [lra | assumption].
Qed.

Lemma py_min_spec (l : list R) :
  l <> [] ->
  exists m, py_min l = Ok m /\ In m l /\ Forall (fun v => m <= v) l.
Proof.
  destruct l as [| x l]; [contradiction |]. intros _.
  eexists. split; [reflexivity |]. apply fold_min_spec.
Qed.

Lemma py_max_spec (l : list R) :
  l <> [] ->
  exists m, py_max l = Ok m /\ In m l /\ Forall (fun v => v <= m) l.
Proof.
  destruct l as [| x l]; [contradiction |]. intros _.
  eexists. split; [reflexivity |]. apply fold_max_spec.
Qed.

Lemma map_snd_nonempty (data : list (R * R)) : data <> [] -> map snd data <> [].
Proof. destruct data; [contradiction | discriminate]. Qed.

(** X16. On data that are not empty [create_summary_table] returns, for
    the shear and for the moment, a minimum and a maximum that are sampled
    values and bound every sampled value from below and from above. *)
Theorem create_summary_table_bounds (shear_data moment_data : list (R * R)) :
  shear_data <> [] -> moment_data <> [] ->
  exists min_v min_m max_v max_m,
    create_summary_table shear_data moment_data
    = Ok {| Quantity := ["Shear Force (V)"; "Moment (M)"];
            Minimum := [min_v; min_m];
            Maximum := [max_v; max_m] |} /\
    In min_v (map snd shear_data) /\ In max_v (map snd shear_data) /\
    In min_m (map snd moment_data) /\ In max_m (map snd moment_data) /\
    (forall p, In p shear_data -> min_v <= snd p <= max_v) /\
    (forall p, In p moment_data -> min_m <= snd p <= max_m).
Proof.
  intros Hs Hm.
  destruct (py_min_spec _ (map_snd_nonempty _ Hs)) as (min_v & E1 & I1 & A1).
  destruct (py_min_spec _ (map_snd_nonempty _ Hm)) as (min_m & E2 & I2 & A2).
  destruct (py_max_spec _ (map_snd_nonempty _ Hs)) as (max_v & E3 & I3 & A3).
  destruct (py_max_spec _ (map_snd_nonempty _ Hm)) as (max_m & E4 & I4 & A4).
  exists min_v, min_m, max_v, max_m.
  unfold create_summary_table. rewrite E1, E2, E3, E4. cbn [bind].
  rewrite Forall_forall in A1, A2, A3, A4.
  repeat split; try assumption.
  - apply A1, in_map, H.
  - apply A3, in_map, H.
  - apply A2, in_map, H.
  - apply A4, in_map, H.
Qed.

Lemma create_summary_table_bounds_witness :
  exists min_v min_m max_v max_m,
    create_summary_table [(0, 10); (1, 4); (2, -2)] [(0, 0); (1, 7); (2, 3)]
    = Ok {| Quantity := ["Shear Force (V)"; "Moment (M)"];
            Minimum := [min_v; min_m];
            Maximum := [max_v; max_m] |} /\
    min_v <= max_v /\ min_m <= max_m.
Proof.
  assert (Hs : [(0, 10); (1, 4); (2, -2)] <> @nil (R * R)) by discriminate.
  assert (Hm : [(0, 0); (1, 7); (2, 3)] <> @nil (R * R)) by discriminate.
  destruct (create_summary_table_bounds _ _ Hs Hm)
    as (a & b' & c & d & E & _ & _ & _ & _ & Bs & Bm).
  exists a, b', c, d. split; [exact E |].
  pose proof (Bs (0, 10) (or_introl eq_refl)).
  pose proof (Bm (0, 0) (or_introl eq_refl)). simpl in *. lra.
Defined.

(** X17. [create_summary_table] raises a [ValueError] exactly when the
    shear data or the moment data are empty, and otherwise returns. *)
Theorem create_summary_table_empty (shear_data moment_data : list (R * R)) :
  (shear_data = [] \/ moment_data = []) <->
  (exists msg, create_summary_table shear_data moment_data
               = Raise (ValueError msg)).
Proof.
  split.
  - intros [-> | ->].
    + eexists. reflexivity.
    + destruct shear_data as [| p l]; [eexists; reflexivity |].
      eexists. reflexivity.
  - intros [msg E].
    destruct shear_data as [| p l]; [left; reflexivity |].
    destruct moment_data as [| q l']; [right; reflexivity |].
    discriminate E.
Qed.

Lemma create_summary_table_empty_witness :
  exists msg, create_summary_table [(0, 1)] [] = Raise (ValueError msg).
Proof.
  apply (proj1 (create_summary_table_empty [(0, 1)] [])).
  right. reflexivity.
Defined.

(** ** beams_analysis_test: the sampled diagrams *)

Lemma linspace_length (a b : R) (n : nat) : length (linspace a b n) = n.
Proof. unfold linspace. rewrite length_map, length_seq. reflexivity. Qed.

Lemma non_decreasing_map_seq (f : nat -> R) (s n : nat) :
  (forall k, f k <= f (S k)) -> non_decreasing (map f (seq s n)).
Proof.
  intros Hf. revert s. induction n as [| n IH]; intros s; [exact I |].
  cbn [seq map]. destruct n as [| n]; [exact I |].
  cbn [seq map]. split; [apply Hf |]. apply (IH (S s)).
Qed.

Lemma linspace_sorted (L : R) (n : nat) :
  0 <= L -> non_decreasing (linspace 0 L (S (S n))).
Proof.
  intros HL. unfold linspace. apply non_decreasing_map_seq. intros k.
  rewrite S_INR.
  assert (0 < INR (S (S n) - 1)) by (apply lt_0_INR; simpl; lia).
  assert (0 <= (L - 0) / INR (S (S n) - 1))
    by (apply Rmult_le_pos; [lra | apply Rlt_le, Rinv_0_lt_compat; assumption]).
  lra.
Qed.

Lemma linspace_bounds (L : R) (n : nat) :
  0 <= L -> Forall (fun x => 0 <= x <= L) (linspace 0 L (S (S n))).
Proof.
  intros HL. unfold linspace. rewrite Forall_forall. intros x Hx.
  apply in_map_iff in Hx. destruct Hx as (k & <- & Hk).
  apply in_seq in Hk.
  replace (S (S n) - 1)%nat with (S n) by lia.
  assert (Hn : 0 < INR (S n)) by (apply lt_0_INR; lia).
  assert (Hk' : 0 <= INR k <= INR (S n))
    by (split; [apply pos_INR | apply le_INR; lia]).
  assert (Hs : 0 <= (L - 0) / INR (S n))
    by (apply Rmult_le_pos; [lra | apply Rlt_le, Rinv_0_lt_compat; assumption]).
  assert (E : INR (S n) * ((L - 0) / INR (S n)) = L) by (field; lra).
  split; [assert (0 <= INR k * ((L - 0) / INR (S n))) by (apply Rmult_le_pos; lra); lra |].
  rewrite <- E at 2.
  assert (INR k * ((L - 0) / INR (S n)) <= INR (S n) * ((L - 0) / INR (S n)))
    by (apply Rmult_le_compat_r; lra).
  lra.
Qed.

Lemma non_decreasing_app (l1 l2 : list R) (m : R) :
  non_decreasing l1 -> non_decreasing l2 ->
  Forall (fun x => x <= m) l1 -> Forall (fun x => m <= x) l2 ->
  non_decreasing (l1 ++ l2).
Proof.
  intros H1 H2 B1 B2. induction l1 as [| x l1 IH]; [exact H2 |].
  inversion B1 as [| ? ? Hx B1']; subst.
  destruct l1 as [| y l1].
  - simpl. destruct l2 as [| z l2]; [exact I |].
    inversion B2; subst. split; [lra | exact H2].
  - destruct H1 as [Hxy H1]. cbn [app]. split; [exact Hxy |].
    apply IH; assumption.
Qed.

Lemma non_decreasing_shift (l : list R) (c : R) :
  non_decreasing l -> non_decreasing (map (fun x => x + c) l).
Proof.
  induction l as [| x l IH]; [exact (fun H => H) |].
  destruct l as [| y l]; [exact (fun H => H) |].
  intros [Hxy H]. cbn [map]. split; [lra |]. apply IH, H.
Qed.

Section BeamResults.
Variable member_L : string -> R.
Variable member_shear : string -> R -> R.
Variable member_moment : string -> R -> R.

Lemma continuous_beam_eq (l1 l2 l3 : R) :
  continuous_beam member_L member_shear member_moment l1 l2 l3
  = ([0; l1; l1 + l2],
     (span_samples member_L member_shear "M0" 0 ++ span_samples member_L member_shear "M1" l1
      ++ span_samples member_L member_shear "M2" (l1 + l2) ++ [])%list,
     (span_samples member_L member_moment "M0" 0 ++ span_samples member_L member_moment "M1" l1
      ++ span_samples member_L member_moment "M2" (l1 + l2) ++ [])%list).
Proof. reflexivity. Qed.

Lemma span_samples_fst (f : string -> R -> R) (member : string) (offset : R) :
  map fst (span_samples member_L f member offset)
  = map (fun x => x + offset) (linspace 0 (member_L member) 50).
Proof. unfold span_samples. rewrite map_map. reflexivity. Qed.

Lemma span_samples_sorted (f : string -> R -> R) (member : string) (offset : R) :
  0 <= member_L member ->
  non_decreasing (map fst (span_samples member_L f member offset)) /\
  Forall (fun x => offset <= x <= offset + member_L member)
         (map fst (span_samples member_L f member offset)).
Proof.
  intros HL. rewrite span_samples_fst. split.
  - apply non_decreasing_shift, (linspace_sorted _ 48), HL.
  - pose proof (linspace_bounds _ 48 HL) as HB.
    rewrite Forall_forall in *. intros x Hx.
    apply in_map_iff in Hx. destruct Hx as (y & <- & Hy).
    specialize (HB y Hy). simpl in HB. lra.
Qed.

Lemma beam_abscissas_sorted (f : string -> R -> R) (l1 l2 l3 : R) :
  member_L "M0" = l1 -> member_L "M1" = l2 -> member_L "M2" = l3 ->
  0 <= l1 -> 0 <= l2 -> 0 <= l3 ->
  let xs := map fst (span_samples member_L f "M0" 0 ++ span_samples member_L f "M1" l1
                     ++ span_samples member_L f "M2" (l1 + l2) ++ [])%list in
  non_decreasing xs /\ Forall (fun x => 0 <= x <= l1 + l2 + l3) xs.
Proof.
  intros E0 E1 E2 H1 H2 H3 xs. subst xs.
  rewrite app_nil_r, !map_app.
  destruct (span_samples_sorted f "M0" 0) as [S0 B0]; [rewrite E0; exact H1 |].
  destruct (span_samples_sorted f "M1" l1) as [S1 B1]; [rewrite E1; exact H2 |].
  destruct (span_samples_sorted f "M2" (l1 + l2)) as [S2 B2];
    [rewrite E2; exact H3 |].
  rewrite E0 in B0. rewrite E1 in B1. rewrite E2 in B2.
  split.
  - apply (non_decreasing_app _ _ l1); [exact S0 | | |].
    + apply (non_decreasing_app _ _ (l1 + l2)); [exact S1 | exact S2 | |].
      * eapply Forall_impl; [| exact B1]. simpl. intros; lra.
      * eapply Forall_impl; [| exact B2]. simpl. intros; lra.
    + eapply Forall_impl; [| exact B0]. simpl. intros; lra.
    + apply Forall_app. split.
      * eapply Forall_impl; [| exact B1]. simpl. intros; lra.
      * eapply Forall_impl; [| exact B2]. simpl. intros; lra.
  - apply Forall_app. split; [| apply Forall_app; split].
    + eapply Forall_impl; [| exact B0]. simpl. intros; lra.
    + eapply Forall_impl; [| exact B1]. simpl. intros; lra.
    + eapply Forall_impl; [| exact B2]. simpl. intros; lra.
Qed.

Lemma span_samples_length (f : string -> R -> R) (member : string) (offset : R) :
  length (span_samples member_L f member offset) = 50%nat.
Proof. unfold span_samples. rewrite length_map, linspace_length. reflexivity. Qed.

(** X18. When the members have the lengths of the spans and no span is
    negative, [continuous_beam] returns the offsets [0, l1, l1+l2] and
    150 samples for each diagram, at the same abscissas for shear and
    moment; the abscissas never go down and stay between 0 and the
    length of the beam. *)
Theorem continuous_beam_abscissas (l1 l2 l3 : R) :
  member_L "M0" = l1 -> member_L "M1" = l2 -> member_L "M2" = l3 ->
  0 <= l1 -> 0 <= l2 -> 0 <= l3 ->
  exists shear_data moment_data,
    continuous_beam member_L member_shear member_moment l1 l2 l3
    = ([0; l1; l1 + l2], shear_data, moment_data) /\
    length shear_data = 150%nat /\ length moment_data = 150%nat /\
    map fst moment_data = map fst shear_data /\
    non_decreasing (map fst shear_data) /\
    Forall (fun x => 0 <= x <= l1 + l2 + l3) (map fst shear_data).
Proof.
  intros E0 E1 E2 H1 H2 H3. rewrite continuous_beam_eq.
  do 2 eexists. split; [reflexivity |].
  split; [rewrite !length_app, !span_samples_length; reflexivity |].
  split; [rewrite !length_app, !span_samples_length; reflexivity |].
  split; [rewrite !map_app, !span_samples_fst; reflexivity |].
  apply beam_abscissas_sorted; assumption.
Qed.

Lemma linspace_last (L : R) :
  linspace 0 L 50
  = (map (fun k => 0 + INR k * ((L - 0) / INR 49)) (seq 0 49) ++ [L])%list.
Proof.
  unfold linspace. change (50 - 1)%nat with 49%nat.
  change 50%nat with (S 49) at 1. rewrite seq_S, map_app. cbn [map Nat.add].
  f_equal. f_equal.
  assert (0 < INR 49) by (apply lt_0_INR; lia). field. lra.
Qed.

Lemma linspace_first (L : R) :
  exists rest, linspace 0 L 50 = 0 :: rest.
Proof.
  unfold linspace. change 50%nat with (S 49) at 2. cbn [seq map].
  eexists. f_equal. simpl INR. lra.
Qed.

Lemma linspace_front_below (L : R) :
  0 < L ->
  Forall (fun x => x < L)
         (map (fun k => 0 + INR k * ((L - 0) / INR 49)) (seq 0 49)).
Proof.
  intros HL. rewrite Forall_forall. intros x Hx.
  apply in_map_iff in Hx. destruct Hx as (k & <- & Hk). apply in_seq in Hk.
  assert (Hn : 0 < INR 49) by (apply lt_0_INR; lia).
  assert (Hk' : INR k < INR 49) by (apply lt_INR; lia).
  assert (Hs : 0 < (L - 0) / INR 49)
    by (apply Rdiv_lt_0_compat; lra).
  assert (E : INR 49 * ((L - 0) / INR 49) = L) by (field; lra).
  assert (INR k * ((L - 0) / INR 49) < INR 49 * ((L - 0) / INR 49))
    by (apply Rmult_lt_compat_r; assumption).
  lra.
Qed.

Lemma first_at_junction (f : string -> R -> R) (l1 : R) (rest : list (R * R)) :
  member_L "M0" = l1 -> 0 < l1 ->
  first_at_or_after l1 (span_samples member_L f "M0" 0 ++ rest) = Some (f "M0" l1).
Proof.
  intros E0 H1. apply first_at_or_after_some.
  unfold span_samples. rewrite E0, linspace_last, map_app. cbn [map].
  rewrite <- app_assoc. cbn [app].
  eexists _, (l1 + 0), rest. split; [reflexivity |].
  split; [lra |].
  pose proof (linspace_front_below l1 H1) as HB.
  rewrite Forall_forall in *. intros p Hp.
  apply in_map_iff in Hp. destruct Hp as (x & <- & Hx).
  specialize (HB x Hx). simpl. lra.
Qed.

(** X19. At the first inner support, where the samples of the first and
    the second member meet at the same abscissa, the lookup on the data of
    [continuous_beam] answers the values at the end of the first member. *)
Theorem continuous_beam_lookup_at_support (l1 l2 l3 : R) :
  member_L "M0" = l1 -> 0 < l1 ->
  exists shear_data moment_data,
    continuous_beam member_L member_shear member_moment l1 l2 l3
    = ([0; l1; l1 + l2], shear_data, moment_data) /\
    get_shear_moment_at_x l1 shear_data moment_data
    = (Some (member_shear "M0" l1), Some (member_moment "M0" l1)).
Proof.
  intros E0 H1. rewrite continuous_beam_eq.
  do 2 eexists. split; [reflexivity |].
  unfold get_shear_moment_at_x.
  rewrite !first_at_junction by assumption. reflexivity.
Qed.

Lemma first_at_start (f : string -> R -> R) (x_offset : R) (rest : list (R * R)) :
  x_offset <= 0 ->
  first_at_or_after x_offset (span_samples member_L f "M0" 0 ++ rest) = Some (f "M0" 0).
Proof.
  intros Hx. unfold span_samples.
  destruct (linspace_first (member_L "M0")) as [tl ->].
  cbn [map app first_at_or_after].
  destruct (Rge_dec (0 + 0) x_offset); [reflexivity | lra].
Qed.

(** X20. On the data of [continuous_beam] a lookup at or before
    abscissa 0 answers the values at the start of the first member, and a
    lookup beyond the end of the beam answers [None] twice. *)
Theorem continuous_beam_lookup_outside (l1 l2 l3 x_offset : R) :
  exists shear_data moment_data,
    continuous_beam member_L member_shear member_moment l1 l2 l3
    = ([0; l1; l1 + l2], shear_data, moment_data) /\
    (x_offset <= 0 ->
     get_shear_moment_at_x x_offset shear_data moment_data
     = (Some (member_shear "M0" 0), Some (member_moment "M0" 0))) /\
    (member_L "M0" = l1 -> member_L "M1" = l2 -> member_L "M2" = l3 ->
     0 <= l1 -> 0 <= l2 -> 0 <= l3 -> l1 + l2 + l3 < x_offset ->
     get_shear_moment_at_x x_offset shear_data moment_data = (None, None)).
Proof.
  rewrite continuous_beam_eq. do 2 eexists. split; [reflexivity |]. split.
  - intros Hx. unfold get_shear_moment_at_x.
    rewrite !first_at_start by assumption. reflexivity.
  - intros E0 E1 E2 H1 H2 H3 Hx. unfold get_shear_moment_at_x.
    assert (Hnone : forall f,
              first_at_or_after x_offset
                (span_samples member_L f "M0" 0 ++ span_samples member_L f "M1" l1
                 ++ span_samples member_L f "M2" (l1 + l2) ++ []) = None).
    { intros f. apply first_at_or_after_none.
      destruct (beam_abscissas_sorted f l1 l2 l3 E0 E1 E2 H1 H2 H3) as [_ HB].
      rewrite Forall_forall in *. intros p Hp.
      specialize (HB (fst p) (in_map fst _ _ Hp)). simpl in HB. lra. }
    rewrite !Hnone. reflexivity.
Qed.
End BeamResults.

Lemma continuous_beam_abscissas_witness :
  exists shear_data moment_data,
    continuous_beam example_L example_shear example_moment 4 5 3
    = ([0; 4; 4 + 5], shear_data, moment_data) /\
    non_decreasing (map fst shear_data).
Proof.
  destruct (continuous_beam_abscissas example_L example_shear example_moment
              4 5 3) as (sd & md & E & _ & _ & _ & Hs & _);
    try reflexivity; try lra.
  exists sd, md. split; assumption.
Defined.

Lemma continuous_beam_lookup_at_support_witness :
  exists shear_data moment_data,
    continuous_beam example_L example_shear example_moment 4 5 3
    = ([0; 4; 4 + 5], shear_data, moment_data) /\
    get_shear_moment_at_x 4 shear_data moment_data
    = (Some (example_shear "M0" 4), Some (example_moment "M0" 4)).
Proof.
  apply continuous_beam_lookup_at_support; [reflexivity | lra].
Defined.

Lemma continuous_beam_lookup_outside_witness :
  exists shear_data moment_data,
    continuous_beam example_L example_shear example_moment 4 5 3
    = ([0; 4; 4 + 5], shear_data, moment_data) /\
    get_shear_moment_at_x 13 shear_data moment_data = (None, None).
Proof.
  destruct (continuous_beam_lookup_outside example_L example_shear
              example_moment 4 5 3 13) as (sd & md & E & _ & Hout).
  exists sd, md. split; [exact E |].
  apply Hout; try reflexivity; lra.
Defined.

(** ** The radiation and the module area *)

Lemma fold_sum_bounds (l : list R) (a lo hi : R) :
  Forall (fun x => lo <= x <= hi) l ->
  a + INR (length l) * lo <= fold_left Rplus l a <= a + INR (length l) * hi.
Proof.
  revert a. induction l as [| x l IH]; intros a Hall.
  - simpl. lra.
  - inversion Hall as [| ? ? Hx Hl]; subst.
    cbn [fold_left length]. rewrite S_INR.
    specialize (IH (a + x) Hl). lra.
Qed.

Section RequestsResults.
Variable requests_get : R -> R -> response.

Lemma get_global_radiation_ok (lat lon : R) (radiation : list (string * R)) :
  status_code (requests_get lat lon) = 200%Z ->
  series_of (requests_get lat lon) = Some radiation ->
  radiation <> [] ->
  get_global_radiation requests_get lat lon
  = Return (py_sum (map snd radiation) / INR (length radiation)).
Proof.
  intros Hs Hser Hne. unfold get_global_radiation, series_of in *.
  rewrite Hs. cbn [Z.eqb Pos.eqb]. unfold subscript.
  destruct (dict_get "properties" _) as [props |]; [| discriminate].
  cbn [outcome_bind].
  destruct (dict_get "parameter" props) as [param |]; [| discriminate].
  cbn [outcome_bind]. rewrite Hser. cbn [outcome_bind].
  destruct radiation; [contradiction | reflexivity].
Qed.

(** X21. On a reply with status 200 whose body holds a series that is
    not empty, [get_global_radiation] returns the arithmetic mean of the
    daily values; the mean lies in every interval that holds all of
    them. *)
Theorem get_global_radiation_mean (lat lon : R) (radiation : list (string * R)) :
  status_code (requests_get lat lon) = 200%Z ->
  series_of (requests_get lat lon) = Some radiation ->
  radiation <> [] ->
  exists q,
    get_global_radiation requests_get lat lon = Return q /\
    q * INR (length radiation) = py_sum (map snd radiation) /\
    forall lo hi,
      (forall p, In p radiation -> lo <= snd p <= hi) -> lo <= q <= hi.
Proof.
  intros Hs Hser Hne.
  exists (py_sum (map snd radiation) / INR (length radiation)).
  split; [apply get_global_radiation_ok; assumption |].
  assert (Hn : 0 < INR (length radiation)).
  { apply lt_0_INR. destruct radiation; [contradiction | simpl; lia]. }
  split; [field; lra |].
  intros lo hi Hb.
  assert (Hall : Forall (fun x => lo <= x <= hi) (map snd radiation)).
  { rewrite Forall_forall. intros x Hx. apply in_map_iff in Hx.
    destruct Hx as (p & <- & Hp). apply Hb, Hp. }
  pose proof (fold_sum_bounds _ 0 lo hi Hall) as HB.
  rewrite length_map in HB. fold (py_sum (map snd radiation)) in HB.
  split.
  - apply (Rmult_le_reg_r (INR (length radiation))); [assumption |].
    unfold Rdiv. rewrite Rmult_assoc, Rinv_l by lra. lra.
  - apply (Rmult_le_reg_r (INR (length radiation))); [assumption |].
    unfold Rdiv. rewrite Rmult_assoc, Rinv_l by lra. lra.
Qed.


(** X23. When the radiation is fetched and neither the efficiency nor
    the tilted radiation is 0, [pv_module_area] returns an area that
    balances the demand: area times tilted radiation times efficiency is
    the household plus the car consumption; the area is positive when
    these quantities are. *)
Theorem pv_module_area_balance (W_hh W_car eta_pv lat lon eta_tilt q : R) :
  get_global_radiation requests_get lat lon = Return q ->
  eta_pv <> 0 -> q * eta_tilt <> 0 ->
  exists A,
    pv_module_area requests_get W_hh W_car eta_pv lat lon eta_tilt = Return A /\
    A * (q * eta_tilt) * eta_pv = W_hh + W_car /\
    (0 < W_hh + W_car -> 0 < eta_pv -> 0 < q * eta_tilt -> 0 < A).
Proof.
  intros Hq Hpv Ht. unfold pv_module_area. rewrite Hq. cbn [outcome_bind].
  rewrite float_div_ok by assumption. cbn [lift outcome_bind].
  rewrite float_div_ok by assumption. cbn [lift outcome_bind].
  assert (Hq0 : q <> 0) by (intros E; apply Ht; rewrite E; ring).
  assert (Ht0 : eta_tilt <> 0) by (intros E; apply Ht; rewrite E; ring).
  eexists. split; [reflexivity |]. split; [field; auto |].
  intros HW Hp Hqt. apply Rdiv_lt_0_compat; [| assumption].
  apply Rdiv_lt_0_compat; assumption.
Qed.

(** X24. [pv_module_area] passes on every error of the fetch, and with a
    fetched radiation it raises [ZeroDivisionError] when the efficiency
    is 0 or the tilted radiation is 0. *)
Theorem pv_module_area_errors (W_hh W_car eta_pv lat lon eta_tilt : R) :
  (forall e, get_global_radiation requests_get lat lon = Throw e ->
     pv_module_area requests_get W_hh W_car eta_pv lat lon eta_tilt = Throw e) /\
  (forall q, get_global_radiation requests_get lat lon = Return q ->
     eta_pv = 0 \/ q * eta_tilt = 0 ->
     exists msg,
       pv_module_area requests_get W_hh W_car eta_pv lat lon eta_tilt
       = Throw (Builtin (ZeroDivisionError msg))).
Proof.
  split.
  - intros e He. unfold pv_module_area. rewrite He. reflexivity.
  - intros q Hq Hz. unfold pv_module_area. rewrite Hq. cbn [outcome_bind].
    unfold float_div at 1. destruct (Req_dec_T eta_pv 0) as [| Hpv];
      [eexists; reflexivity |]. cbn [lift outcome_bind].
    unfold float_div. destruct (Req_dec_T (q * eta_tilt) 0) as [| Hqt];
      [eexists; reflexivity |]. destruct Hz; contradiction.
Qed.

(** X25. With a charging efficiency other than 0 the function of
    NASA_API_Solar_Radiation_list.py is [pv_module_area] of
    Photovoltaics_API.py called with the car consumption
    [W_car * (s / 100) / eta_laden], errors included; with a charging
    efficiency of 0 and a fetched radiation it raises
    [ZeroDivisionError]. *)
Theorem calculate_pv_module_area_is_pv_module_area
  (W_el_hh W_car s eta_laden eta_pv lat lon eta_tilt : R) :
  (eta_laden <> 0 ->
   calculate_pv_module_area_tilt_lat_lon requests_get
     W_el_hh W_car s eta_laden eta_pv lat lon eta_tilt
   = pv_module_area requests_get
       W_el_hh (W_car * (s / 100) / eta_laden) eta_pv lat lon eta_tilt) /\
  (eta_laden = 0 ->
   forall q, get_global_radiation requests_get lat lon = Return q ->
   calculate_pv_module_area_tilt_lat_lon requests_get
     W_el_hh W_car s eta_laden eta_pv lat lon eta_tilt
   = Throw (Builtin (ZeroDivisionError "float division by zero"))).
Proof.
  split.
  - intros Hl. unfold calculate_pv_module_area_tilt_lat_lon, pv_module_area.
    destruct (get_global_radiation requests_get lat lon) as [q | e];
      cbn [outcome_bind]; [| reflexivity].
    rewrite (float_div_ok _ eta_laden) by assumption. cbn [lift outcome_bind].
    reflexivity.
  - intros Hl q Hq. unfold calculate_pv_module_area_tilt_lat_lon.
    rewrite Hq. cbn [outcome_bind]. unfold float_div at 1.
    destruct (Req_dec_T eta_laden 0); [reflexivity | contradiction].
Qed.
End RequestsResults.

Lemma example_reply_radiation (lat lon : R) :
  get_global_radiation example_reply lat lon = Return 5.
Proof.
  rewrite (get_global_radiation_ok example_reply lat lon
             [("20230101", 4); ("20230102", 6); ("20230103", 5)]);
    [| reflexivity | reflexivity | discriminate].
  f_equal. unfold py_sum. simpl. lra.
Qed.

Lemma example_refusal_radiation (lat lon : R) :
  get_global_radiation example_refusal lat lon
  = Throw (Exception "Error fetching data from the API").
Proof. reflexivity. Qed.

Lemma get_global_radiation_mean_witness :
  exists q, get_global_radiation example_reply 41.6 (-0.9) = Return q /\ 4 <= q <= 6.
Proof.
  destruct (get_global_radiation_mean example_reply 41.6 (-0.9)
              [("20230101", 4); ("20230102", 6); ("20230103", 5)])
    as (q & E & _ & Hb); [reflexivity | reflexivity | discriminate |].
  exists q. split; [exact E |]. apply Hb.
  intros p [<- | [<- | [<- | []]]]; simpl; lra.
Defined.


Lemma pv_module_area_balance_witness :
  exists A,
    pv_module_area example_reply 10 8 0.15 41.6 (-0.9) 0.9 = Return A /\
    A * (5 * 0.9) * 0.15 = 10 + 8 /\ 0 < A.
Proof.
  destruct (pv_module_area_balance example_reply 10 8 0.15 41.6 (-0.9) 0.9 5)
    as (A & E & Hb & Hp); [apply example_reply_radiation | lra | lra |].
  exists A. split; [exact E | split; [exact Hb | apply Hp; lra]].
Defined.

Lemma pv_module_area_errors_witness :
  pv_module_area example_refusal 10 8 0.15 41.6 (-0.9) 0.9
  = Throw (Exception "Error fetching data from the API") /\
  exists msg,
    pv_module_area example_reply 10 8 0 41.6 (-0.9) 0.9
    = Throw (Builtin (ZeroDivisionError msg)).
Proof.
  split.
  - apply (proj1 (pv_module_area_errors example_refusal 10 8 0.15 41.6 (-0.9) 0.9)).
    apply example_refusal_radiation.
  - apply (proj2 (pv_module_area_errors example_reply 10 8 0 41.6 (-0.9) 0.9) 5).
    + apply example_reply_radiation.
    + left. reflexivity.
Defined.

Lemma calculate_pv_module_area_is_pv_module_area_witness :
  calculate_pv_module_area_tilt_lat_lon example_reply
    10 20 40 0.90 0.15 41.6 (-0.9) 0.9
  = pv_module_area example_reply 10 (20 * (40 / 100) / 0.90) 0.15 41.6 (-0.9) 0.9.
Proof.
  apply (proj1 (calculate_pv_module_area_is_pv_module_area example_reply
                  10 20 40 0.90 0.15 41.6 (-0.9) 0.9)).
  lra.
Defined.
